(** * KDynamicWallpaper: metadata records and the AVIF wallpaper writer

    A shallow embedding of [src/lib/kdynamicwallpapermetadata.h] and
    [src/lib/kdynamicwallpaperwriter.cpp], with the Qt and libavif entry
    points the writer calls kept as interfaces. *)

From Stdlib Require Import ZArith List String Strings.Byte Bool Lia.
From Stdlib Require Import Floats.SpecFloat.
From stdpp Require Import gmap strings list.
From Equations Require Import Equations.
Import ListNotations.

Local Open Scope Z_scope.

(** ** QByteArray *)

Module QByteArray.

Definition t := list byte.

Definition ofString (s : string) : t := list_byte_of_string s.

(** [startsWith s before]: [before] is a prefix of [s]. *)
Fixpoint startsWith (s before : t) {struct before} : bool :=
  match before with
  | [] => true
  | b :: before' =>
      match s with
      | [] => false
      | c :: s' => Byte.eqb b c && startsWith s' before'
      end
  end.

(** QByteArray::replace(before, after): every occurrence of [before],
    found left to right, is replaced by [after]; the search resumes
    behind the replaced bytes, so the inserted text is never rescanned. *)
Equations? replace (before after s : t) : t by wf (length s) lt :=
  replace before after [] := [];
  replace before after (c :: s') :=
    if startsWith (c :: s') before
    then after ++ replace before after (drop (length before - 1) s')
    else c :: replace before after s'.
Proof. rewrite length_drop. simpl. lia. Qed.

(** Number of positions of [s] at which [before] starts. *)
Fixpoint count (s before : t) : nat :=
  match s with
  | [] => O
  | _ :: s' => ((if startsWith s before then 1 else 0) + count s' before)%nat
  end.

(** The base64 alphabet of RFC 4648. *)
Definition base64Alphabet : t :=
  ofString "ABCDEFGHIJKLMNOPQRSTUVWXYZabcdefghijklmnopqrstuvwxyz0123456789+/".

Definition base64Char (n : N) : byte :=
  nth (N.to_nat n) base64Alphabet "="%byte.

Definition sextet (n : N) (k : N) : byte :=
  base64Char (N.land (N.shiftr n k) 63).

(** QByteArray::toBase64() with the default options (padding kept). *)
Fixpoint toBase64 (s : t) : t :=
  match s with
  | [] => []
  | [a] =>
      let n := N.shiftl (Byte.to_N a) 16 in
      [sextet n 18; sextet n 12; "="%byte; "="%byte]
  | [a; b] =>
      let n := N.lor (N.shiftl (Byte.to_N a) 16) (N.shiftl (Byte.to_N b) 8) in
      [sextet n 18; sextet n 12; sextet n 6; "="%byte]
  | a :: b :: c :: s' =>
      let n := N.lor (N.lor (N.shiftl (Byte.to_N a) 16)
                            (N.shiftl (Byte.to_N b) 8)) (Byte.to_N c) in
      sextet n 18 :: sextet n 12 :: sextet n 6 :: sextet n 0 :: toBase64 s'
  end.

End QByteArray.

(** ** QJsonValue, QJsonObject *)

#[local] Set Warnings "-register-all".

Inductive QJsonValue : Type :=
| JNull
| JBool (b : bool)
| JDouble (d : spec_float)
| JString (s : string)
| JArray (a : list QJsonValue)
| JObject (o : gmap string QJsonValue).

(** A QJsonObject maps keys to values; writing to an existing key
    replaces its value. *)
Abbreviation QJsonObject := (gmap string QJsonValue).

(** ** Numbers held by a QJsonValue

    A JSON number is a C++ [double]: an IEEE 754 binary64 value, here a
    [spec_float] with 53 bits of precision. *)

Definition INT_MIN : Z := - 2 ^ 31.
Definition INT_MAX : Z := 2 ^ 31 - 1.

(** Conversion of an [int] to [double]: exact, with the mantissa
    normalised to 53 bits. *)
Definition double_of_int (i : Z) : spec_float :=
  match i with
  | Z0 => S754_zero false
  | Zpos p =>
      let digits := Z.log2 (Zpos p) + 1 in
      S754_finite false (Z.to_pos (Z.shiftl (Zpos p) (53 - digits))) (digits - 53)
  | Zneg p =>
      let digits := Z.log2 (Zpos p) + 1 in
      S754_finite true (Z.to_pos (Z.shiftl (Zpos p) (53 - digits))) (digits - 53)
  end.

(** QJsonValue::toInt on a number: the value when it is a whole number
    that fits an [int], nothing otherwise. *)
Definition double_to_int (d : spec_float) : option Z :=
  match d with
  | S754_zero _ => Some 0
  | S754_finite s m e =>
      let whole :=
        if 0 <=? e then Some (Zpos m * 2 ^ e)
        else if Zpos m mod 2 ^ (- e) =? 0 then Some (Zpos m / 2 ^ (- e))
        else None in
      match whole with
      | Some v =>
          let v := if s then - v else v in
          if (INT_MIN <=? v) && (v <=? INT_MAX) then Some v else None
      | None => None
      end
  | S754_infinity _ | S754_nan => None
  end.

(** ** KDynamicWallpaperMetaData (kdynamicwallpapermetadata.h) *)

(** class KDynamicWallpaperMetaData *)
Module MetaData.

Inductive CrossFadeMode := NoCrossFade | CrossFade.

(** enum MetaDataField *)
Definition CrossFadeField : Z := Z.shiftl 1 0.
Definition TimeField : Z := Z.shiftl 1 1.
Definition SolarAzimuthField : Z := Z.shiftl 1 2.
Definition SolarElevationField : Z := Z.shiftl 1 3.
Definition IndexField : Z := Z.shiftl 1 4.

(** Modelled from the spec: the private data of a record, which the
    header only forward-declares (KDynamicWallpaperMetaDataPrivate).
    A presence bitmask and one stored value per field. *)
Record t := mk {
  presentFields : Z;
  crossFadeMode : CrossFadeMode;
  time : spec_float;
  solarElevation : spec_float;
  solarAzimuth : spec_float;
  index : Z
}.

(** Modelled from the spec: the default constructor, whose body is not
    in the header. A record is constructed empty: no field present. *)
Definition empty : t :=
  {| presentFields := 0;
     crossFadeMode := NoCrossFade;
     time := S754_zero false;
     solarElevation := S754_zero false;
     solarAzimuth := S754_zero false;
     index := 0 |}.

(** Modelled from the spec: fields() returns the presence bitmask. *)
Definition fields (md : t) : Z := presentFields md.

(** Modelled from the spec: isValid() is true iff the bitmask is
    non-zero. *)
Definition isValid (md : t) : bool := negb (fields md =? 0).

Definition testFlag (md : t) (field : Z) : bool :=
  negb (Z.land (presentFields md) field =? 0).

(** Modelled from the spec: each setter stores the value and sets the
    corresponding presence bit; no range validation. *)
Definition setCrossFadeMode (mode : CrossFadeMode) (md : t) : t :=
  {| presentFields := Z.lor (presentFields md) CrossFadeField;
     crossFadeMode := mode;
     time := time md;
     solarElevation := solarElevation md;
     solarAzimuth := solarAzimuth md;
     index := index md |}.

Definition setTime (v : spec_float) (md : t) : t :=
  {| presentFields := Z.lor (presentFields md) TimeField;
     crossFadeMode := crossFadeMode md;
     time := v;
     solarElevation := solarElevation md;
     solarAzimuth := solarAzimuth md;
     index := index md |}.

Definition setSolarElevation (v : spec_float) (md : t) : t :=
  {| presentFields := Z.lor (presentFields md) SolarElevationField;
     crossFadeMode := crossFadeMode md;
     time := time md;
     solarElevation := v;
     solarAzimuth := solarAzimuth md;
     index := index md |}.

Definition setSolarAzimuth (v : spec_float) (md : t) : t :=
  {| presentFields := Z.lor (presentFields md) SolarAzimuthField;
     crossFadeMode := crossFadeMode md;
     time := time md;
     solarElevation := solarElevation md;
     solarAzimuth := v;
     index := index md |}.

Definition setIndex (v : Z) (md : t) : t :=
  {| presentFields := Z.lor (presentFields md) IndexField;
     crossFadeMode := crossFadeMode md;
     time := time md;
     solarElevation := solarElevation md;
     solarAzimuth := solarAzimuth md;
     index := v |}.

(** Modelled from the spec: toJson(), declared in the header and
    defined outside it. The object holds exactly the keys of the
    present fields: numbers for the numeric fields, a boolean for the
    cross-fade mode; absent fields are omitted. *)
Definition toJson (md : t) : QJsonObject :=
  let object : QJsonObject := ∅ in
  let object :=
    if testFlag md CrossFadeField
    then <["CrossFade" := JBool match crossFadeMode md with
                                | CrossFade => true
                                | NoCrossFade => false
                                end]> object
    else object in
  let object :=
    if testFlag md TimeField
    then <["Time" := JDouble (time md)]> object else object in
  let object :=
    if testFlag md SolarElevationField
    then <["SolarElevation" := JDouble (solarElevation md)]> object
    else object in
  let object :=
    if testFlag md SolarAzimuthField
    then <["SolarAzimuth" := JDouble (solarAzimuth md)]> object
    else object in
  let object :=
    if testFlag md IndexField
    then <["Index" := JDouble (double_of_int (index md))]> object
    else object in
  object.

(** Modelled from the spec: fromJson(), declared in the header and
    defined outside it. Each known key that is present with a value of
    its type sets the field and its presence bit; unknown keys are
    ignored and a malformed value leaves the field absent. *)
Definition fromJson (object : QJsonObject) : t :=
  let metaData := empty in
  let metaData :=
    match object !! "CrossFade" with
    | Some (JBool b) =>
        setCrossFadeMode (if b then CrossFade else NoCrossFade) metaData
    | _ => metaData
    end in
  let metaData :=
    match object !! "Time" with
    | Some (JDouble d) => setTime d metaData
    | _ => metaData
    end in
  let metaData :=
    match object !! "SolarElevation" with
    | Some (JDouble d) => setSolarElevation d metaData
    | _ => metaData
    end in
  let metaData :=
    match object !! "SolarAzimuth" with
    | Some (JDouble d) => setSolarAzimuth d metaData
    | _ => metaData
    end in
  let metaData :=
    match object !! "Index" with
    | Some (JDouble d) =>
        match double_to_int d with
        | Some i => setIndex i metaData
        | None => metaData
        end
    | _ => metaData
    end in
  metaData.

(** A call of one of the five setters. *)
Inductive SetCall :=
| SetCrossFadeMode (mode : CrossFadeMode)
| SetTime (v : spec_float)
| SetSolarElevation (v : spec_float)
| SetSolarAzimuth (v : spec_float)
| SetIndex (v : Z).

Definition call (c : SetCall) (md : t) : t :=
  match c with
  | SetCrossFadeMode mode => setCrossFadeMode mode md
  | SetTime v => setTime v md
  | SetSolarElevation v => setSolarElevation v md
  | SetSolarAzimuth v => setSolarAzimuth v md
  | SetIndex v => setIndex v md
  end.

(** The presence flag a setter raises. *)
Definition flagOf (c : SetCall) : Z :=
  match c with
  | SetCrossFadeMode _ => CrossFadeField
  | SetTime _ => TimeField
  | SetSolarElevation _ => SolarElevationField
  | SetSolarAzimuth _ => SolarAzimuthField
  | SetIndex _ => IndexField
  end.

(** The bitwise union of the flags of a sequence of setter calls. *)
Definition unionOf (cs : list SetCall) : Z :=
  foldr (fun c acc => Z.lor (flagOf c) acc) 0 cs.

(** The setter calls applied left to right to [md]. *)
Definition calls (cs : list SetCall) (md : t) : t :=
  fold_left (fun md c => call c md) cs md.

(** The argument of setIndex is a C++ [int]. *)
Definition wellTyped (c : SetCall) : Prop :=
  match c with
  | SetIndex v => INT_MIN <= v <= INT_MAX
  | _ => True
  end.

(** What [calls] maintains: only the five known bits can be set, and
    a present index is an [int]. *)
Definition wellFormed (md : t) : Prop :=
  0 <= presentFields md < 32 /\
  (testFlag md IndexField = true -> INT_MIN <= index md <= INT_MAX).

(** The values [fromJson (toJson md)] agrees on with [md]. *)
Definition sameRecord (md md' : t) : Prop :=
  fields md' = fields md /\
  (testFlag md CrossFadeField = true -> crossFadeMode md' = crossFadeMode md) /\
  (testFlag md TimeField = true -> time md' = time md) /\
  (testFlag md SolarElevationField = true ->
   solarElevation md' = solarElevation md) /\
  (testFlag md SolarAzimuthField = true -> solarAzimuth md' = solarAzimuth md) /\
  (testFlag md IndexField = true -> index md' = index md).

End MetaData.

(** ** QIODevice *)

Module QIODevice.

(** enum QIODevice::OpenModeFlag *)
Definition NotOpen : Z := 0.
Definition ReadOnly : Z := 1.
Definition WriteOnly : Z := 2.
Definition ReadWrite : Z := Z.lor ReadOnly WriteOnly.

(** The virtual interface the writer uses, over the device's state.
    [open] returns whether it succeeded together with the device
    afterwards; [write] returns the device afterwards (the writer
    ignores the byte count). *)
Class Ops (D : Type) := {
  openMode : D -> Z;
  open : Z -> D -> bool * D;
  write : QByteArray.t -> D -> D;
  errorString : D -> string
}.

Definition isOpen {D} `{Ops D} (device : D) : bool :=
  negb (openMode device =? NotOpen).

Definition isWritable {D} `{Ops D} (device : D) : bool :=
  negb (Z.land (openMode device) WriteOnly =? 0).

End QIODevice.

(** ** QFile on a file system *)

Module QFile.

(** The files that exist, and the paths that cannot be opened for
    writing with the message the attempt leaves. *)
Record FileSystem := {
  files : gmap string QByteArray.t;
  denied : gmap string string
}.

(** A QFile object: its name, open mode and last error, next to the
    file system it acts on. *)
Record t := {
  fileName : string;
  mode : Z;
  error : string;
  fs : FileSystem
}.

(** QFile file(fileName): constructed closed. *)
Definition ctor (name : string) (fs : FileSystem) : t :=
  {| fileName := name; mode := QIODevice.NotOpen;
     error := "Unknown error"; fs := fs |}.

(** QFile::open: WriteOnly creates or truncates the file. *)
Definition open (flags : Z) (file : t) : bool * t :=
  match denied (fs file) !! fileName file with
  | Some message =>
      (false, {| fileName := fileName file; mode := mode file;
                 error := message; fs := fs file |})
  | None =>
      (true, {| fileName := fileName file; mode := flags;
                error := error file;
                fs := {| files := <[fileName file := []]> (files (fs file));
                         denied := denied (fs file) |} |})
  end.

Definition write (data : QByteArray.t) (file : t) : t :=
  if negb (Z.land (mode file) QIODevice.WriteOnly =? 0)
  then {| fileName := fileName file; mode := mode file; error := error file;
          fs := {| files := <[fileName file :=
                                default [] (files (fs file) !! fileName file)
                                ++ data]> (files (fs file));
                   denied := denied (fs file) |} |}
  else file.

#[global] Instance ops : QIODevice.Ops t := {
  QIODevice.openMode := mode;
  QIODevice.open := open;
  QIODevice.write := write;
  QIODevice.errorString := error
}.

End QFile.

(** ** QImage *)

Module QImage.

(** enum QImage::Format, the value the writer names. *)
Definition Format_RGB888 : Z := 13.

(** enum QImage::Format, the format a null image reports. *)
Definition Format_Invalid : Z := 0.

Record t := {
  format : Z;
  width : Z;
  height : Z;
  bytesPerLine : Z;
  constBits : QByteArray.t
}.

(** QImage(): the null image, without pixel data. *)
Definition null : t :=
  {| format := Format_Invalid; width := 0; height := 0;
     bytesPerLine := 0; constBits := [] |}.

(** QImage::isNull, read off the format the image reports. *)
Definition isNull (image : t) : bool := format image =? Format_Invalid.

End QImage.

(** ** The Qt services the writer calls *)

Class QtApi := {
  (** QImage::convertToFormat *)
  convertToFormat : QImage.t -> Z -> QImage.t;
  (** QJsonDocument::toJson(QJsonDocument::Compact) *)
  QJsonDocument_toJson : QJsonValue -> QByteArray.t;
  (** the resource file :/kdynamicwallpaper/xmp/metadata.xml *)
  metadata_xml : QByteArray.t;
  (** QThread::idealThreadCount() *)
  idealThreadCount : Z
}.

(** ** libavif *)

Module Avif.

Definition avifResult := Z.
Definition AVIF_RESULT_OK : avifResult := 0.
Definition AVIF_PIXEL_FORMAT_YUV444 : Z := 1.
Definition AVIF_RGB_FORMAT_RGB : Z := 0.
Definition AVIF_ADD_IMAGE_FLAG_NONE : Z := 0.

(** struct avifRGBImage, the fields the writer assigns or that are
    derived from the frame. *)
Record avifRGBImage := {
  rgbWidth : Z;
  rgbHeight : Z;
  depth : Z;
  format : Z;
  rowBytes : Z;
  pixels : QByteArray.t
}.

(** The encoder library: frames and encoders are opaque. A call that
    updates its argument in place returns the updated value next to
    its result. *)
Class Api := {
  avifImage : Type;
  avifEncoder : Type;
  avifImageCreate : Z -> Z -> Z -> Z -> avifImage;
  avifImageSetMetadataXMP : avifImage -> QByteArray.t -> avifImage;
  avifRGBImageSetDefaults : avifImage -> avifRGBImage;
  avifImageRGBToYUV : avifImage -> avifRGBImage -> avifResult * avifImage;
  avifEncoderCreate : avifEncoder;
  (** the assignment encoder->maxThreads = n *)
  setMaxThreads : Z -> avifEncoder -> avifEncoder;
  avifEncoderAddImage :
    avifEncoder -> avifImage -> Z -> Z -> avifResult * avifEncoder;
  avifEncoderFinish : avifEncoder -> avifResult * QByteArray.t;
  avifResultToString : avifResult -> string
}.

End Avif.


(** ** KDynamicWallpaperWriter (kdynamicwallpaperwriter.cpp) *)

(** enum KDynamicWallpaperWriter::WallpaperWriterError *)
Inductive WallpaperWriterError := NoError | DeviceError | EncoderError.

(** class KDynamicWallpaperWriterPrivate *)
Module WriterPrivate.

Record t := {
  wallpaperWriterError : WallpaperWriterError;
  errorString : string;
  images : list QImage.t;
  metaData : list MetaData.t
}.

Definition ctor : t :=
  {| wallpaperWriterError := NoError; errorString := "";
     images := []; metaData := [] |}.

(** Assignment to the two error members. *)
Definition setError (e : WallpaperWriterError) (message : string) (d : t) : t :=
  {| wallpaperWriterError := e; errorString := message;
     images := images d; metaData := metaData d |}.

Section Flush.
Context `{QtApi} `{Avif.Api}.
Import Avif.

(** The placeholder of the XMP template. *)
Definition placeholder : QByteArray.t := QByteArray.ofString "base64".

Definition serializeMetaData
  (metaData : list MetaData.t) : QByteArray.t :=
  let array :=
    fold_left (fun array md =>
                 array ++ [JObject (MetaData.toJson md)])
              metaData [] in
  let document := JArray array in
  let base64 := QByteArray.toBase64 (QJsonDocument_toJson document) in
  let xmp := metadata_xml in
  QByteArray.replace placeholder base64 xmp.

(** What the frame loop of flush reads and writes: the writer, the
    encoder and the frames kept for it. *)
Record FlushState := {
  self : t;
  encoder : avifEncoder;
  avifImages : list avifImage
}.

(** The frame created for an image, with the metadata block attached. *)
Definition frameOf (xmp : QByteArray.t) (image : QImage.t) : avifImage :=
  let avif := avifImageCreate (QImage.width image) (QImage.height image) 8
                AVIF_PIXEL_FORMAT_YUV444 in
  avifImageSetMetadataXMP avif xmp.

(** The view of the image's pixels given to the conversion. *)
Definition rgbOf (avif : avifImage) (image : QImage.t) : avifRGBImage :=
  let rgb := avifRGBImageSetDefaults avif in
  {| rgbWidth := rgbWidth rgb;
     rgbHeight := rgbHeight rgb;
     format := AVIF_RGB_FORMAT_RGB;
     depth := 8;
     rowBytes := QImage.bytesPerLine image;
     pixels := QImage.constBits image |}.

(** One iteration of the loop over the images. *)
Definition flushFrame (xmp : QByteArray.t) (st : FlushState) (image : QImage.t)
  : FlushState :=
  let avif := frameOf xmp image in
  let rgb := rgbOf avif image in
  let '(result, avif) := avifImageRGBToYUV avif rgb in
  if negb (result =? AVIF_RESULT_OK) then st
  else
    let '(result, encoder) :=
      avifEncoderAddImage (encoder st) avif 0 AVIF_ADD_IMAGE_FLAG_NONE in
    if negb (result =? AVIF_RESULT_OK)
    then {| self := self st; encoder := encoder; avifImages := avifImages st |}
    else {| self := self st; encoder := encoder;
            avifImages := avifImages st ++ [avif] |}.

Definition flushFrames (xmp : QByteArray.t) (st : FlushState)
  (images : list QImage.t) : FlushState :=
  fold_left (flushFrame xmp) images st.

(** The state in which the loop starts. *)
Definition flushStart (d : t) : FlushState :=
  let encoder := avifEncoderCreate in
  let encoder := setMaxThreads idealThreadCount encoder in
  {| self := d; encoder := encoder; avifImages := [] |}.

(** KDynamicWallpaperWriterPrivate::flush *)
Definition flush {D} `{QIODevice.Ops D} (d : t) (device : D) : t * D :=
  let xmp := serializeMetaData (metaData d) in
  let st := flushFrames xmp (flushStart d) (images d) in
  let d := self st in
  let '(result, output) := avifEncoderFinish (encoder st) in
  if result =? AVIF_RESULT_OK
  then (d, QIODevice.write output device)
  else (setError EncoderError (avifResultToString result) d, device).

(** The result of the conversion of [image] and, when the loop is in
    state [st], of its hand-off to the encoder. *)
Definition conversionResult (xmp : QByteArray.t) (image : QImage.t) : avifResult :=
  let avif := frameOf xmp image in
  fst (avifImageRGBToYUV avif (rgbOf avif image)).

Definition handOffResult (xmp : QByteArray.t) (st : FlushState)
  (image : QImage.t) : avifResult :=
  let avif := frameOf xmp image in
  let avif := snd (avifImageRGBToYUV avif (rgbOf avif image)) in
  fst (avifEncoderAddImage (encoder st) avif 0 AVIF_ADD_IMAGE_FLAG_NONE).

(** The result and the bytes the encoder finishes with for writer [d]. *)
Definition finishResult (d : t) : avifResult * QByteArray.t :=
  let xmp := serializeMetaData (metaData d) in
  avifEncoderFinish (encoder (flushFrames xmp (flushStart d) (images d))).

(** The frame an image is turned into when its conversion succeeds. *)
Definition convertedFrame (xmp : QByteArray.t) (image : QImage.t) : avifImage :=
  let avif := frameOf xmp image in
  snd (avifImageRGBToYUV avif (rgbOf avif image)).

(** Whether the conversion of [image] succeeds. *)
Definition converts (xmp : QByteArray.t) (image : QImage.t) : bool :=
  conversionResult xmp image =? AVIF_RESULT_OK.

(** The encoder after a frame was handed to it the way the loop does,
    and after a list of frames was, one after the other. *)
Definition handOff (encoder : avifEncoder) (avif : avifImage) : avifEncoder :=
  snd (avifEncoderAddImage encoder avif 0 AVIF_ADD_IMAGE_FLAG_NONE).

Definition handOffs (encoder : avifEncoder) (frames : list avifImage)
  : avifEncoder :=
  fold_left handOff frames encoder.

(** Every image of the list is converted and handed to the encoder
    without failure when the loop runs over it from state [st]. *)
Fixpoint framesAccepted (xmp : QByteArray.t) (st : FlushState)
  (images : list QImage.t) : Prop :=
  match images with
  | [] => True
  | image :: images =>
      conversionResult xmp image = AVIF_RESULT_OK /\
      handOffResult xmp st image = AVIF_RESULT_OK /\
      framesAccepted xmp (flushFrame xmp st image) images
  end.

End Flush.

End WriterPrivate.

(** class KDynamicWallpaperWriter: the public methods, on the private
    data they all go through. *)
Module Writer.
Import WriterPrivate.

Section Methods.
Context `{QtApi} `{Avif.Api}.

Definition ctor : t := WriterPrivate.ctor.

Definition setMetaData (metaData : list MetaData.t) (d : t) : t :=
  {| wallpaperWriterError := wallpaperWriterError d;
     errorString := errorString d;
     images := images d;
     WriterPrivate.metaData := metaData |}.

Definition metaData (d : t) : list MetaData.t :=
  WriterPrivate.metaData d.

Definition setImages (images : list QImage.t) (d : t) : t :=
  let tmpImages :=
    fold_left (fun tmpImages image =>
                 tmpImages ++ [convertToFormat image QImage.Format_RGB888])
              images [] in
  {| wallpaperWriterError := wallpaperWriterError d;
     errorString := errorString d;
     WriterPrivate.images := tmpImages;
     WriterPrivate.metaData :=
       WriterPrivate.metaData d |}.

Definition images (d : t) : list QImage.t :=
  WriterPrivate.images d.

(** bool flush(QIODevice *device) *)
Definition flush {D} `{QIODevice.Ops D} (d : t) (device : D) : bool * t * D :=
  if QIODevice.isOpen device then
    if Z.land (QIODevice.openMode device) QIODevice.WriteOnly =? 0 then
      (false,
       setError DeviceError "The device is not open for writing" d,
       device)
    else
      let '(d, device) := WriterPrivate.flush d device in
      (true, d, device)
  else
    let '(opened, device) := QIODevice.open QIODevice.WriteOnly device in
    if negb opened then
      (false, setError DeviceError (QIODevice.errorString device) d, device)
    else
      let '(d, device) := WriterPrivate.flush d device in
      (true, d, device).

(** bool flush(const QString &fileName): the file object lives for the
    call; the file system is what remains of it. *)
Definition flush_fileName (d : t) (fileName : string) (fs : QFile.FileSystem)
  : bool * t * QFile.FileSystem :=
  let file := QFile.ctor fileName fs in
  let '(opened, file) := QIODevice.open QIODevice.WriteOnly file in
  if negb opened then
    (false, setError DeviceError (QIODevice.errorString file) d, QFile.fs file)
  else
    let '(d, file) := WriterPrivate.flush d file in
    (true, d, QFile.fs file).

Definition error (d : t) : WallpaperWriterError := wallpaperWriterError d.

Definition errorString (d : t) : string :=
  match wallpaperWriterError d with
  | NoError => "No error"
  | _ => WriterPrivate.errorString d
  end.

(** static bool canWrite(QIODevice *device) *)
Definition canWrite {D} `{QIODevice.Ops D} (device : D) : bool :=
  QIODevice.isWritable device.

(** static bool canWrite(const QString &fileName) *)
Definition canWrite_fileName (fileName : string) (fs : QFile.FileSystem)
  : bool * QFile.FileSystem :=
  let file := QFile.ctor fileName fs in
  (QIODevice.isWritable file, QFile.fs file).

(** The destination flush(device) ends up writing to: the device
    itself when it comes open for writing, the device as opened by the
    call when it comes closed and opening succeeds. *)
Definition opened {D} `{QIODevice.Ops D} (device : D) : option D :=
  if QIODevice.isOpen device then
    if Z.land (QIODevice.openMode device) QIODevice.WriteOnly =? 0
    then None else Some device
  else
    let '(ok, device) := QIODevice.open QIODevice.WriteOnly device in
    if ok then Some device else None.

(** One call of a method of the writer that can change it, on any
    argument. *)
Inductive Step : t -> t -> Prop :=
| StepSetMetaData (metaData : list MetaData.t) (d : t) :
    Step d (setMetaData metaData d)
| StepSetImages (images : list QImage.t) (d : t) :
    Step d (setImages images d)
| StepFlush {D} `{QIODevice.Ops D} (device : D) (d : t) :
    Step d (snd (fst (flush d device)))
| StepFlushFileName (fileName : string) (fs : QFile.FileSystem) (d : t) :
    Step d (snd (fst (flush_fileName d fileName fs))).

End Methods.

End Writer.


(** ** Test doubles

    Small implementations of the collaborator interfaces, used to run
    the writer on concrete inputs. *)

Module Double.

(** An in-memory device. [openFails] is the message [open] fails with,
    if it does; [received] collects the bytes written. *)
Record Sink := {
  sinkMode : Z;
  openFails : option string;
  sinkError : string;
  received : QByteArray.t
}.

Definition sinkOpen (flags : Z) (s : Sink) : bool * Sink :=
  match openFails s with
  | Some message =>
      (false, {| sinkMode := sinkMode s; openFails := openFails s;
                 sinkError := message; received := received s |})
  | None =>
      (true, {| sinkMode := flags; openFails := openFails s;
                sinkError := sinkError s; received := received s |})
  end.

Definition sinkWrite (data : QByteArray.t) (s : Sink) : Sink :=
  if negb (Z.land (sinkMode s) QIODevice.WriteOnly =? 0)
  then {| sinkMode := sinkMode s; openFails := openFails s;
          sinkError := sinkError s; received := received s ++ data |}
  else s.

#[global] Instance sinkOps : QIODevice.Ops Sink := {
  QIODevice.openMode := sinkMode;
  QIODevice.open := sinkOpen;
  QIODevice.write := sinkWrite;
  QIODevice.errorString := sinkError
}.

Definition closedSink : Sink :=
  {| sinkMode := QIODevice.NotOpen; openFails := None;
     sinkError := ""; received := [] |}.

Definition readOnlySink : Sink :=
  {| sinkMode := QIODevice.ReadOnly; openFails := None;
     sinkError := ""; received := [] |}.

Definition openedSink : Sink :=
  {| sinkMode := QIODevice.WriteOnly; openFails := None;
     sinkError := ""; received := [] |}.

Definition lockedSink : Sink :=
  {| sinkMode := QIODevice.NotOpen; openFails := Some "Permission denied";
     sinkError := ""; received := [] |}.

(** Qt: the conversion only relabels the image as three bytes per
    pixel; the JSON printer renders an array with one pair of braces per
    element. *)
Definition convert (image : QImage.t) (format : Z) : QImage.t :=
  {| QImage.format := format;
     QImage.width := QImage.width image;
     QImage.height := QImage.height image;
     QImage.bytesPerLine := 3 * QImage.width image;
     QImage.constBits := QImage.constBits image |}.

Definition printJson (v : QJsonValue) : QByteArray.t :=
  match v with
  | JArray [] => QByteArray.ofString "[]"
  | JArray (_ :: a) =>
      QByteArray.ofString "[{}" ++
      concat (map (fun _ => QByteArray.ofString ",{}") a) ++
      QByteArray.ofString "]"
  | _ => QByteArray.ofString "null"
  end.

Definition template : QByteArray.t :=
  QByteArray.ofString
    "<x:xmpmeta xmlns:x='adobe:ns:meta/'><plasma:DynamicWallpaper>base64</plasma:DynamicWallpaper></x:xmpmeta>".

Definition qt : QtApi := {|
  convertToFormat := convert;
  QJsonDocument_toJson := printJson;
  metadata_xml := template;
  idealThreadCount := 4
|}.

(** The same Qt services with a conversion that, as Qt's, returns a null
    image as it is. *)
Definition convertUnlessNull (image : QImage.t) (format : Z) : QImage.t :=
  if QImage.isNull image then image else convert image format.

Definition qtNullAware : QtApi := {|
  convertToFormat := convertUnlessNull;
  QJsonDocument_toJson := printJson;
  metadata_xml := template;
  idealThreadCount := 4
|}.

(** The same Qt services around another template. *)
Definition qtWith (xml : QByteArray.t) : QtApi := {|
  convertToFormat := convert;
  QJsonDocument_toJson := printJson;
  metadata_xml := xml;
  idealThreadCount := 4
|}.

(** libavif: a frame is its size, metadata and pixels; the encoder is
    the list of frames added. Conversion fails on an image without
    pixels, adding fails on a frame of another size than the first,
    finishing fails without frames. *)
Record Frame := {
  frameWidth : Z;
  frameHeight : Z;
  frameXmp : QByteArray.t;
  planes : QByteArray.t
}.

Definition NO_CONTENT : Avif.avifResult := 3.
Definition REFORMAT_FAILED : Avif.avifResult := 5.
Definition INCOMPATIBLE_IMAGE : Avif.avifResult := 25.

Definition create (width height depth yuvFormat : Z) : Frame :=
  {| frameWidth := width; frameHeight := height; frameXmp := []; planes := [] |}.

Definition setXmp (frame : Frame) (xmp : QByteArray.t) : Frame :=
  {| frameWidth := frameWidth frame; frameHeight := frameHeight frame;
     frameXmp := xmp; planes := planes frame |}.

Definition rgbDefaults (frame : Frame) : Avif.avifRGBImage :=
  {| Avif.rgbWidth := frameWidth frame; Avif.rgbHeight := frameHeight frame;
     Avif.depth := 8; Avif.format := 1; Avif.rowBytes := 0; Avif.pixels := [] |}.

Definition rgbToYuv (frame : Frame) (rgb : Avif.avifRGBImage)
  : Avif.avifResult * Frame :=
  match Avif.pixels rgb with
  | [] => (REFORMAT_FAILED, frame)
  | _ :: _ =>
      (Avif.AVIF_RESULT_OK,
       {| frameWidth := frameWidth frame; frameHeight := frameHeight frame;
          frameXmp := frameXmp frame; planes := Avif.pixels rgb |})
  end.

Definition addImage (frames : list Frame) (frame : Frame) (duration flags : Z)
  : Avif.avifResult * list Frame :=
  match frames with
  | first :: _ =>
      if (frameWidth first =? frameWidth frame)
         && (frameHeight first =? frameHeight frame)
      then (Avif.AVIF_RESULT_OK, frames ++ [frame])
      else (INCOMPATIBLE_IMAGE, frames)
  | [] => (Avif.AVIF_RESULT_OK, [frame])
  end.

Definition finish (frames : list Frame) : Avif.avifResult * QByteArray.t :=
  match frames with
  | [] => (NO_CONTENT, [])
  | _ :: _ =>
      (Avif.AVIF_RESULT_OK,
       QByteArray.ofString "ftypavis" ++ concat (map planes frames))
  end.

Definition resultToString (result : Avif.avifResult) : string :=
  if result =? Avif.AVIF_RESULT_OK then "OK"
  else if result =? NO_CONTENT then "No content"
  else if result =? REFORMAT_FAILED then "Reformat failed"
  else if result =? INCOMPATIBLE_IMAGE then "Incompatible image"
  else "Unknown Error".

Definition avif : Avif.Api := {|
  Avif.avifImage := Frame;
  Avif.avifEncoder := list Frame;
  Avif.avifImageCreate := create;
  Avif.avifImageSetMetadataXMP := setXmp;
  Avif.avifRGBImageSetDefaults := rgbDefaults;
  Avif.avifImageRGBToYUV := rgbToYuv;
  Avif.avifEncoderCreate := [];
  Avif.setMaxThreads := fun _ encoder => encoder;
  Avif.avifEncoderAddImage := addImage;
  Avif.avifEncoderFinish := finish;
  Avif.avifResultToString := resultToString
|}.

(** Three images: the second has no pixels, the third another size. *)
Definition pixel (image_format width height : Z) (bits : string) : QImage.t :=
  {| QImage.format := image_format; QImage.width := width;
     QImage.height := height; QImage.bytesPerLine := 4 * width;
     QImage.constBits := QByteArray.ofString bits |}.

Definition red : QImage.t := pixel 4 1 1 "R00".
Definition blank : QImage.t := pixel 5 1 1 "".
Definition wide : QImage.t := pixel 4 2 1 "G00B00".
Definition blue : QImage.t := pixel 13 1 1 "B00".

(** A file system with one directory entry that refuses writing. *)
Definition disk : QFile.FileSystem :=
  {| QFile.files := ∅;
     QFile.denied := {["/proc/version" := "Permission denied"]} |}.

(** A file system on which the wallpaper exists already. *)
Definition usedDisk : QFile.FileSystem :=
  {| QFile.files := {["/tmp/wallpaper.avif" := QByteArray.ofString "old";
                      "/tmp/notes.txt" := QByteArray.ofString "notes"]};
     QFile.denied := {["/proc/version" := "Permission denied"]} |}.

End Double.

(** * Properties *)

(** ** Byte arrays *)

Example toBase64_Man :
  QByteArray.toBase64 (QByteArray.ofString "Man") = QByteArray.ofString "TWFu".
Proof. reflexivity. Qed.

Example toBase64_Ma :
  QByteArray.toBase64 (QByteArray.ofString "Ma") = QByteArray.ofString "TWE=".
Proof. reflexivity. Qed.

Example toBase64_M :
  QByteArray.toBase64 (QByteArray.ofString "M") = QByteArray.ofString "TQ==".
Proof. reflexivity. Qed.

Example toBase64_empty_array :
  QByteArray.toBase64 (QByteArray.ofString "[]") = QByteArray.ofString "W10=".
Proof. reflexivity. Qed.

Example replace_every_occurrence :
  QByteArray.replace (QByteArray.ofString "ab") (QByteArray.ofString "xab")
                     (QByteArray.ofString "abcabab")
  = QByteArray.ofString "xabcxabxab".
Proof. reflexivity. Qed.

Section ReplaceFacts.
Import QByteArray.

Lemma startsWith_app (before s : QByteArray.t) :
  startsWith (before ++ s) before = true.
Proof.
  induction before as [|b before IH]; simpl; [reflexivity|].
  rewrite IH, andb_true_r. now apply Byte.byte_dec_lb.
Qed.

Lemma count_app_ge (l1 l2 before : QByteArray.t) :
  (count l2 before <= count (l1 ++ l2) before)%nat.
Proof.
  induction l1 as [|c l1 IH]; simpl; [lia|].
  destruct (startsWith _ _); lia.
Qed.

Lemma replace_absent (before after s : QByteArray.t) :
  count s before = O -> replace before after s = s.
Proof.
  induction s as [|c s IH]; intros Hc; simp replace; [reflexivity|].
  simpl in Hc. destruct (startsWith (c :: s) before) eqn:E; [lia|].
  simpl. f_equal. apply IH. lia.
Qed.

Lemma replace_single (before after pre post : QByteArray.t) :
  before <> [] ->
  count (pre ++ before ++ post) before = 1%nat ->
  replace before after (pre ++ before ++ post) = pre ++ after ++ post.
Proof.
  intros Hne. induction pre as [|c pre IH]; intros Hc.
  - destruct before as [|b bs]; [congruence|].
    cbn [app] in *. simp replace.
    change (b :: bs ++ post) with ((b :: bs) ++ post).
    rewrite startsWith_app. cbn [length].
    replace (S (length bs) - 1)%nat with (length bs) by lia.
    rewrite drop_app_length.
    cbn [count] in Hc.
    change (b :: bs ++ post) with ((b :: bs) ++ post) in Hc.
    rewrite startsWith_app in Hc.
    pose proof (count_app_ge bs post (b :: bs)).
    rewrite replace_absent by lia. reflexivity.
  - cbn [app] in *. simp replace. cbn [count] in Hc.
    pose proof (count_app_ge pre (before ++ post) before) as H1.
    assert (H2 : (1 <= count (before ++ post) before)%nat).
    { destruct before as [|b bs]; [congruence|].
      cbn [app count]. change (b :: bs ++ post) with ((b :: bs) ++ post).
      rewrite startsWith_app. lia. }
    destruct (startsWith (c :: pre ++ before ++ post) before) eqn:E; [lia|].
    simpl. f_equal. apply IH. lia.
Qed.

End ReplaceFacts.

(** ** Numbers *)

Example double_of_int_is_binary64 :
  map double_of_int [0; 1; 5; -7; 1000000; INT_MAX; INT_MIN]
  = map (fun i => binary_normalize 53 1024 i 0 false)
        [0; 1; 5; -7; 1000000; INT_MAX; INT_MIN].
Proof. vm_compute. reflexivity. Qed.

Example double_to_int_half : double_to_int (S754_finite false 1 (-1)) = None.
Proof. reflexivity. Qed.

Lemma double_to_of_int (i : Z) :
  INT_MIN <= i <= INT_MAX -> double_to_int (double_of_int i) = Some i.
Proof.
  unfold INT_MIN, INT_MAX. intros Hi.
  assert (Hpos : forall (s : bool) (p : positive),
             Zpos p <= 2 ^ 31 ->
             (if s then - Zpos p else Zpos p) = i ->
             double_to_int
               (S754_finite s
                  (Z.to_pos (Z.shiftl (Zpos p) (53 - (Z.log2 (Zpos p) + 1))))
                  (Z.log2 (Zpos p) + 1 - 53)) = Some i).
  { intros s p Hp Hs.
    assert (Hlog : 0 <= Z.log2 (Zpos p) <= 31).
    { split; [apply Z.log2_nonneg|].
      destruct (Z.eq_dec (Zpos p) (2 ^ 31)) as [->|Hne]; [reflexivity|].
      assert (Z.log2 (Zpos p) < 31); [|lia].
      apply Z.log2_lt_pow2; lia. }
    set (k := 53 - (Z.log2 (Zpos p) + 1)).
    assert (Hk : 21 <= k <= 52) by (unfold k; lia).
    replace (Z.log2 (Zpos p) + 1 - 53) with (- k) by (unfold k; lia).
    rewrite Z.shiftl_mul_pow2 by lia.
    assert (H2k : 0 < 2 ^ k) by (apply Z.pow_pos_nonneg; lia).
    unfold double_to_int, INT_MIN, INT_MAX.
    rewrite Z2Pos.id by lia.
    destruct (0 <=? - k) eqn:E; [apply Z.leb_le in E; lia|].
    rewrite Z.opp_involutive, Z.mod_mul, Z.eqb_refl, Z.div_mul by lia.
    rewrite Hs.
    destruct (Z.leb_spec (- 2 ^ 31) i); [|lia].
    destruct (Z.leb_spec i (2 ^ 31 - 1)); [|lia].
    reflexivity. }
  destruct i as [|p|p]; cbn [double_of_int].
  - reflexivity.
  - apply (Hpos false); lia.
  - apply (Hpos true); lia.
Qed.


(** ** Metadata records *)

Section MetaDataFacts.
Import MetaData.

Lemma fields_call (c : SetCall) (md : t) :
  fields (call c md) = Z.lor (fields md) (flagOf c).
Proof. destruct c; reflexivity. Qed.

Lemma fields_calls_from (cs : list SetCall) (md : t) :
  fields (calls cs md) = Z.lor (fields md) (unionOf cs).
Proof.
  revert md. induction cs as [|c cs IH]; intros md.
  - cbn. now rewrite Z.lor_0_r.
  - change (calls (c :: cs) md) with (calls cs (call c md)).
    rewrite IH, fields_call. cbn [unionOf foldr].
    now rewrite Z.lor_assoc.
Qed.

(** C8: after any sequence of setter calls on a freshly constructed
    record, fields() is the bitwise union of the flags of the setters
    called, and isValid() holds exactly when that union is non-zero. *)
Theorem fields_isValid_calls (cs : list SetCall) :
  fields (calls cs empty) = unionOf cs /\
  (isValid (calls cs empty) = true <-> unionOf cs <> 0).
Proof.
  assert (H : fields (calls cs empty) = unionOf cs).
  { rewrite fields_calls_from. reflexivity. }
  split; [exact H|].
  unfold isValid. rewrite H.
  destruct (Z.eqb_spec (unionOf cs) 0) as [->|Hne]; cbn.
  - split; [discriminate|congruence].
  - split; [intros _; exact Hne|reflexivity].
Qed.

Example fields_two_setters :
  fields (calls [SetTime (S754_zero false); SetIndex 3; SetTime (S754_zero true)]
                empty)
  = Z.lor TimeField IndexField.
Proof. reflexivity. Qed.

Example isValid_empty : isValid empty = false.
Proof. reflexivity. Qed.

(** *** Round trip through JSON *)

Lemma small_mask_cases (P : Z -> Prop) :
  Forall P (map Z.of_nat (seq 0 32)) -> forall m, 0 <= m < 32 -> P m.
Proof.
  intros HP m Hm. rewrite Forall_forall in HP. apply HP.
  apply list_elem_of_In, in_map_iff. exists (Z.to_nat m).
  split; [lia|]. apply in_seq. lia.
Qed.

Ltac each_mask :=
  match goal with
  | |- forall m : Z, _ -> @?P m => apply (small_mask_cases P)
  end;
  cbv [map seq Z.of_nat Pos.of_succ_nat Pos.succ];
  repeat match goal with
         | |- Forall _ (_ :: _) => constructor
         | |- Forall _ [] => constructor
         end.

Lemma lor_flag_small (m : Z) (c : SetCall) :
  0 <= m < 32 -> 0 <= Z.lor m (flagOf c) < 32.
Proof.
  intros Hm. revert m Hm. destruct c; each_mask; vm_compute; easy.
Qed.

Lemma wellFormed_empty : wellFormed empty.
Proof. split; [cbn; lia|discriminate]. Qed.

Lemma testFlag_lor_other (m f g : Z) :
  Z.land f g = 0 ->
  negb (Z.land (Z.lor m f) g =? 0) = negb (Z.land m g =? 0).
Proof.
  intros H. now rewrite Z.land_lor_distr_l, H, Z.lor_0_r.
Qed.

Lemma wellFormed_call (c : SetCall) (md : t) :
  wellTyped c -> wellFormed md -> wellFormed (call c md).
Proof.
  intros Hc [Hm Hi]. split.
  - apply (lor_flag_small _ c) in Hm. destruct c; exact Hm.
  - destruct c; try exact (fun _ => Hc);
      unfold testFlag in *;
      cbn [call setCrossFadeMode setTime setSolarElevation setSolarAzimuth
           presentFields index];
      rewrite testFlag_lor_other by reflexivity; exact Hi.
Qed.

Lemma wellFormed_calls (cs : list SetCall) (md : t) :
  Forall wellTyped cs -> wellFormed md -> wellFormed (calls cs md).
Proof.
  intros Hcs. revert md. induction Hcs as [|c cs Hc _ IH]; intros md Hmd.
  - exact Hmd.
  - apply IH, wellFormed_call; assumption.
Qed.

Ltac toJson_lookup :=
  intros; unfold toJson;
  repeat match goal with
         | |- context [testFlag ?md ?f] => destruct (testFlag md f)
         end;
  simplify_map_eq; reflexivity.

Lemma toJson_CrossFade (md : t) :
  toJson md !! "CrossFade" =
  if testFlag md CrossFadeField
  then Some (JBool match crossFadeMode md with
                   | CrossFade => true
                   | NoCrossFade => false
                   end)
  else None.
Proof. toJson_lookup. Qed.

Lemma toJson_Time (md : t) :
  toJson md !! "Time" =
  if testFlag md TimeField then Some (JDouble (time md)) else None.
Proof. toJson_lookup. Qed.

Lemma toJson_SolarElevation (md : t) :
  toJson md !! "SolarElevation" =
  if testFlag md SolarElevationField
  then Some (JDouble (solarElevation md)) else None.
Proof. toJson_lookup. Qed.

Lemma toJson_SolarAzimuth (md : t) :
  toJson md !! "SolarAzimuth" =
  if testFlag md SolarAzimuthField
  then Some (JDouble (solarAzimuth md)) else None.
Proof. toJson_lookup. Qed.

Lemma toJson_Index (md : t) :
  toJson md !! "Index" =
  if testFlag md IndexField
  then Some (JDouble (double_of_int (index md))) else None.
Proof. toJson_lookup. Qed.

Lemma presentFields_by_flag (md : t) :
  0 <= presentFields md < 32 ->
  presentFields md =
  Z.lor (Z.lor (Z.lor (Z.lor (Z.lor 0
    (if testFlag md CrossFadeField then CrossFadeField else 0))
    (if testFlag md TimeField then TimeField else 0))
    (if testFlag md SolarElevationField then SolarElevationField else 0))
    (if testFlag md SolarAzimuthField then SolarAzimuthField else 0))
    (if testFlag md IndexField then IndexField else 0).
Proof.
  destruct md as [m c t e a i]. unfold testFlag. cbn [presentFields].
  revert m. each_mask; vm_compute; reflexivity.
Qed.

Lemma fromJson_toJson_wellFormed (md : t) :
  wellFormed md -> sameRecord md (fromJson (toJson md)).
Proof.
  intros [Hm Hi]. unfold fromJson.
  rewrite toJson_CrossFade, toJson_Time, toJson_SolarElevation,
    toJson_SolarAzimuth, toJson_Index.
  pose proof (presentFields_by_flag md Hm) as E.
  unfold sameRecord, fields.
  destruct (testFlag md IndexField) eqn:EI;
    [rewrite (double_to_of_int _ (Hi eq_refl))|]; clear Hi;
    destruct (testFlag md CrossFadeField), (testFlag md TimeField),
      (testFlag md SolarElevationField), (testFlag md SolarAzimuthField);
    (split; [rewrite E; reflexivity|]);
    repeat split; intros; try discriminate; try reflexivity;
    cbn; destruct (crossFadeMode md); reflexivity.
Qed.

(** C2: for a record built from setter calls only (none included),
    fromJson(toJson(record)) has the same presence bitmask as the
    record and the same value in every field present in it. *)
Theorem fromJson_toJson_calls (cs : list SetCall) :
  Forall wellTyped cs ->
  let md := calls cs empty in
  let md' := fromJson (toJson md) in
  fields md' = fields md /\
  (testFlag md CrossFadeField = true -> crossFadeMode md' = crossFadeMode md) /\
  (testFlag md TimeField = true -> time md' = time md) /\
  (testFlag md SolarElevationField = true ->
   solarElevation md' = solarElevation md) /\
  (testFlag md SolarAzimuthField = true -> solarAzimuth md' = solarAzimuth md) /\
  (testFlag md IndexField = true -> index md' = index md).
Proof.
  intros Hcs. apply fromJson_toJson_wellFormed, wellFormed_calls;
    [exact Hcs|exact wellFormed_empty].
Qed.

Lemma fromJson_toJson_calls_witness :
  let cs := [SetTime (S754_finite false 4503599627370496 (-53));
             SetIndex 7; SetCrossFadeMode CrossFade; SetIndex (-2)] in
  Forall wellTyped cs /\
  fields (fromJson (toJson (calls cs empty))) = 19 /\
  index (fromJson (toJson (calls cs empty))) = -2.
Proof.
  intros cs.
  assert (Hcs : Forall wellTyped cs).
  { repeat constructor; unfold INT_MIN, INT_MAX; lia. }
  split; [exact Hcs|].
  destruct (fromJson_toJson_calls cs Hcs) as (Hf & _ & _ & _ & _ & Hi).
  split; [exact Hf|exact (Hi eq_refl)].
Defined.

Example fromJson_toJson_empty : fromJson (toJson empty) = empty.
Proof. reflexivity. Qed.

Example fromJson_ignores_unknown_and_malformed :
  fields (fromJson (<["Time" := JString "noon"]>
                    (<["Colour" := JBool true]>
                     (<["Index" := JDouble (double_of_int 4)]> ∅))))
  = IndexField.
Proof. reflexivity. Qed.

End MetaDataFacts.



(** ** The metadata block *)

Section SerializeFacts.
Context `{QtApi} `{Avif.Api}.
Import WriterPrivate.

Lemma append_loop {A B} (f : A -> B) (l : list A) (acc : list B) :
  fold_left (fun acc x => acc ++ [f x]) l acc = acc ++ map f l.
Proof.
  revert acc. induction l as [|x l IH]; intros acc; cbn.
  - now rewrite app_nil_r.
  - now rewrite IH, <- app_assoc.
Qed.

(** C1: when the template holds the placeholder once, the metadata
    block is the template with that occurrence replaced by the base64
    form of the compact JSON array of the records' toJson(), all of them
    and in list order; the bytes around the placeholder are kept. *)
Theorem serializeMetaData_template
  (metaData : list MetaData.t) (pre post : QByteArray.t) :
  metadata_xml = pre ++ placeholder ++ post ->
  QByteArray.count metadata_xml placeholder = 1%nat ->
  serializeMetaData metaData =
  pre ++
  QByteArray.toBase64
    (QJsonDocument_toJson
       (JArray (map (fun md => JObject (MetaData.toJson md))
                    metaData))) ++
  post.
Proof.
  intros Hxml Hcount. unfold serializeMetaData.
  rewrite (append_loop (fun md => JObject (MetaData.toJson md))).
  cbn [app]. rewrite Hxml in *.
  apply replace_single; [discriminate|exact Hcount].
Qed.

End SerializeFacts.

Lemma serializeMetaData_template_witness :
  let pre := QByteArray.ofString
    "<x:xmpmeta xmlns:x='adobe:ns:meta/'><plasma:DynamicWallpaper>" in
  let post := QByteArray.ofString "</plasma:DynamicWallpaper></x:xmpmeta>" in
  let metaData :=
    [MetaData.setIndex 1 MetaData.empty;
     MetaData.empty] in
  Double.template = pre ++ WriterPrivate.placeholder ++ post /\
  QByteArray.count Double.template WriterPrivate.placeholder
  = 1%nat /\
  WriterPrivate.serializeMetaData (H := Double.qt) metaData
  = pre ++ QByteArray.ofString "W3t9LHt9XQ==" ++ post.
Proof.
  intros pre post metaData.
  assert (Hxml : Double.template
                 = pre ++ WriterPrivate.placeholder ++ post)
    by reflexivity.
  assert (Hcount : QByteArray.count Double.template
                     WriterPrivate.placeholder = 1%nat)
    by (vm_compute; reflexivity).
  split; [exact Hxml|]. split; [exact Hcount|].
  exact (serializeMetaData_template (H := Double.qt) metaData pre post Hxml Hcount).
Defined.


(** ** The writer *)

Section WriterFacts.
Context `{QtApi} `{Avif.Api}.
Import Avif WriterPrivate.

(** *** Setters *)

(** C10: setMetaData replaces the metadata list and leaves the images
    and the error members alone; setImages leaves the metadata list and
    the error members alone. *)
Theorem setters_frame (d : WriterPrivate.t) (metaData : list MetaData.t)
  (images : list QImage.t) :
  (WriterPrivate.metaData (Writer.setMetaData metaData d) = metaData /\
   WriterPrivate.images (Writer.setMetaData metaData d)
   = WriterPrivate.images d /\
   wallpaperWriterError (Writer.setMetaData metaData d)
   = wallpaperWriterError d /\
   WriterPrivate.errorString (Writer.setMetaData metaData d)
   = WriterPrivate.errorString d /\
   Writer.error (Writer.setMetaData metaData d) = Writer.error d /\
   Writer.errorString (Writer.setMetaData metaData d) = Writer.errorString d) /\
  (WriterPrivate.metaData (Writer.setImages images d)
   = WriterPrivate.metaData d /\
   wallpaperWriterError (Writer.setImages images d)
   = wallpaperWriterError d /\
   WriterPrivate.errorString (Writer.setImages images d)
   = WriterPrivate.errorString d /\
   Writer.error (Writer.setImages images d) = Writer.error d /\
   Writer.errorString (Writer.setImages images d) = Writer.errorString d).
Proof. repeat split. Qed.

Lemma setImages_map (images : list QImage.t) (d : WriterPrivate.t) :
  WriterPrivate.images (Writer.setImages images d)
  = map (fun image => convertToFormat image QImage.Format_RGB888) images.
Proof.
  unfold Writer.setImages. cbn [WriterPrivate.images].
  now rewrite (append_loop (fun image => convertToFormat image QImage.Format_RGB888)).
Qed.

(** *** The frame loop *)

Lemma flushFrame_self (xmp : QByteArray.t) (st : FlushState) (image : QImage.t) :
  self (flushFrame xmp st image) = self st.
Proof.
  unfold flushFrame.
  destruct (avifImageRGBToYUV _ _) as [result avif].
  destruct (negb (result =? AVIF_RESULT_OK)); [reflexivity|].
  destruct (avifEncoderAddImage _ _ _ _) as [result' encoder].
  destruct (negb (result' =? AVIF_RESULT_OK)); reflexivity.
Qed.

Lemma flushFrames_self (xmp : QByteArray.t) (images : list QImage.t)
  (st : FlushState) :
  self (flushFrames xmp st images) = self st.
Proof.
  revert st. induction images as [|image images IH]; intros st; [reflexivity|].
  change (flushFrames xmp st (image :: images))
    with (flushFrames xmp (flushFrame xmp st image) images).
  now rewrite IH, flushFrame_self.
Qed.

Lemma flushFrames_app (xmp : QByteArray.t) (before after : list QImage.t)
  (st : FlushState) :
  flushFrames xmp st (before ++ after)
  = flushFrames xmp (flushFrames xmp st before) after.
Proof. apply fold_left_app. Qed.

Lemma flushFrame_failed (xmp : QByteArray.t) (st : FlushState)
  (image : QImage.t) :
  conversionResult xmp image <> AVIF_RESULT_OK \/
  handOffResult xmp st image <> AVIF_RESULT_OK ->
  avifImages (flushFrame xmp st image) = avifImages st.
Proof.
  unfold conversionResult, handOffResult, flushFrame.
  destruct (avifImageRGBToYUV _ _) as [result avif]. cbn [fst snd].
  destruct (Z.eqb_spec result AVIF_RESULT_OK) as [->|Hr]; cbn [negb];
    [|reflexivity].
  destruct (avifEncoderAddImage _ _ _ _) as [result' encoder]. cbn [fst].
  destruct (Z.eqb_spec result' AVIF_RESULT_OK) as [->|Hr']; cbn [negb];
    [|reflexivity].
  intros [Hc|Hh]; congruence.
Qed.

(** *** flush *)

Section Device.
Context {D : Type} `{QIODevice.Ops D}.

Lemma private_flush_finish (d : WriterPrivate.t) (device : D) :
  WriterPrivate.flush d device =
  if fst (finishResult d) =? AVIF_RESULT_OK
  then (d, QIODevice.write (snd (finishResult d)) device)
  else (setError EncoderError (avifResultToString (fst (finishResult d))) d,
        device).
Proof.
  unfold WriterPrivate.flush, finishResult.
  rewrite flushFrames_self. cbn [self flushStart].
  destruct (avifEncoderFinish _) as [result output]. reflexivity.
Qed.

Lemma flush_opened (d : WriterPrivate.t) (device device' : D) :
  Writer.opened device = Some device' ->
  Writer.flush d device
  = (true, fst (WriterPrivate.flush d device'), snd (WriterPrivate.flush d device')).
Proof.
  unfold Writer.opened, Writer.flush.
  destruct (QIODevice.isOpen device).
  - destruct (Z.land _ _ =? 0); [discriminate|].
    intros [= <-]. now destruct (WriterPrivate.flush d device).
  - destruct (QIODevice.open _ device) as [ok device0].
    destruct ok; [|discriminate]. cbn [negb].
    intros [= <-]. now destruct (WriterPrivate.flush d device0).
Qed.

(** C4: once the destination is open for writing, flush returns true.
    When the encoder fails to finish, the error is EncoderError with
    the encoder's text for its result and nothing is written to the
    destination; when it finishes, its output is written as it is. *)
Theorem flush_finish (d : WriterPrivate.t) (device device' : D) :
  Writer.opened device = Some device' ->
  let result := fst (finishResult d) in
  let output := snd (finishResult d) in
  (result <> AVIF_RESULT_OK ->
   exists d',
     Writer.flush d device = (true, d', device') /\
     Writer.error d' = EncoderError /\
     Writer.errorString d' = avifResultToString result) /\
  (result = AVIF_RESULT_OK ->
   exists d',
     Writer.flush d device = (true, d', QIODevice.write output device')).
Proof.
  intros Hopen result output.
  rewrite (flush_opened d device device' Hopen), private_flush_finish.
  fold result output.
  destruct (Z.eqb_spec result AVIF_RESULT_OK) as [Hr|Hr]; split; intros Hr';
    try contradiction; eexists; repeat split.
Qed.

(** C6, as the code has it: a flush that opens the destination and
    finishes without encoder failure leaves the error code and the
    error string as they were before the call. *)
Theorem flush_success_keeps_error (d : WriterPrivate.t) (device device' : D) :
  Writer.opened device = Some device' ->
  fst (finishResult d) = AVIF_RESULT_OK ->
  exists d' device'',
    Writer.flush d device = (true, d', device'') /\
    Writer.error d' = Writer.error d /\
    Writer.errorString d' = Writer.errorString d.
Proof.
  intros Hopen Hok.
  rewrite (flush_opened d device device' Hopen), private_flush_finish, Hok.
  cbn. eexists _, _. repeat split.
Qed.

(** C3, with the message as the code spells it: flush on a device that
    is open but not for writing returns false, records DeviceError with
    the message below and leaves the device untouched. *)
Theorem flush_not_open_for_writing (d : WriterPrivate.t) (device : D) :
  QIODevice.isOpen device = true ->
  Z.land (QIODevice.openMode device) QIODevice.WriteOnly = 0 ->
  exists d',
    Writer.flush d device = (false, d', device) /\
    Writer.error d' = DeviceError /\
    Writer.errorString d' = "The device is not open for writing".
Proof.
  intros Hopen Hmode. unfold Writer.flush. rewrite Hopen, Hmode. cbn.
  eexists. repeat split.
Qed.

End Device.

(** flush(fileName) on a path that can be opened for writing: the file
    holds the encoder's output, or is left empty when the encoder
    fails. *)
Lemma flush_fileName_finish (d : WriterPrivate.t) (fileName : string)
  (fs : QFile.FileSystem) :
  QFile.denied fs !! fileName = None ->
  Writer.flush_fileName d fileName fs =
  if fst (finishResult d) =? AVIF_RESULT_OK
  then (true, d,
        {| QFile.files :=
             <[fileName := snd (finishResult d)]> (QFile.files fs);
           QFile.denied := QFile.denied fs |})
  else (true,
        setError EncoderError
          (avifResultToString (fst (finishResult d))) d,
        {| QFile.files := <[fileName := []]> (QFile.files fs);
           QFile.denied := QFile.denied fs |}).
Proof.
  intros Hfree. unfold Writer.flush_fileName.
  cbn [QIODevice.open QFile.ops]. unfold QFile.open.
  cbn [QFile.ctor QFile.fs QFile.fileName QFile.mode QFile.error].
  rewrite Hfree. cbn [negb]. rewrite private_flush_finish.
  destruct (fst (finishResult d) =? AVIF_RESULT_OK); [|reflexivity].
  cbn [QIODevice.write QFile.ops]. unfold QFile.write.
  cbn [QFile.mode QFile.fs QFile.files QFile.fileName QFile.denied QFile.error].
  change (negb (Z.land QIODevice.WriteOnly QIODevice.WriteOnly =? 0)) with true.
  cbn iota. rewrite lookup_insert_eq, insert_insert_eq. reflexivity.
Qed.

End WriterFacts.

Lemma canWrite_fileName_false (fileName : string) (fs : QFile.FileSystem) :
  Writer.canWrite_fileName fileName fs = (false, fs).
Proof. reflexivity. Qed.

(** ** Runs on the test doubles *)

Section Runs.
#[local] Existing Instance Double.qt.
#[local] Existing Instance Double.avif.
Import WriterPrivate Double.

Example hand_off_failure_drops_frame :
  handOffResult [] (flushFrames [] (flushStart WriterPrivate.ctor) [red]) wide
  = INCOMPATIBLE_IMAGE /\
  map planes
      (avifImages
         (flushFrames [] (flushStart WriterPrivate.ctor) [red; wide; blank; blue]))
  = [QByteArray.ofString "R00"; QByteArray.ofString "B00"].
Proof. split; reflexivity. Qed.

Lemma flush_finish_witness :
  Writer.opened closedSink = Some openedSink /\
  (exists d',
     Writer.flush WriterPrivate.ctor closedSink = (true, d', openedSink) /\
     Writer.error d' = EncoderError /\
     Writer.errorString d' = "No content") /\
  (exists d',
     Writer.flush (Writer.setImages [red; blue] WriterPrivate.ctor) closedSink
     = (true, d',
        QIODevice.write (QByteArray.ofString "ftypavisR00B00") openedSink)).
Proof.
  assert (Hopen : Writer.opened closedSink = Some openedSink) by reflexivity.
  split; [exact Hopen|]. split.
  - destruct (flush_finish WriterPrivate.ctor closedSink openedSink Hopen)
      as [Hfail _].
    apply Hfail. intros E. discriminate E.
  - exact (proj2 (flush_finish (Writer.setImages [red; blue] WriterPrivate.ctor)
                               closedSink openedSink Hopen) eq_refl).
Defined.

Lemma flush_success_keeps_error_witness :
  let d := setError DeviceError "Permission denied"
                    (Writer.setImages [red] WriterPrivate.ctor) in
  Writer.opened closedSink = Some openedSink /\
  fst (finishResult d) = Avif.AVIF_RESULT_OK /\
  exists d' device'',
    Writer.flush d closedSink = (true, d', device'') /\
    Writer.error d' = DeviceError /\
    Writer.errorString d' = "Permission denied".
Proof.
  intros d.
  assert (Hopen : Writer.opened closedSink = Some openedSink) by reflexivity.
  assert (Hok : fst (finishResult d) = Avif.AVIF_RESULT_OK) by reflexivity.
  split; [exact Hopen|]. split; [exact Hok|].
  exact (flush_success_keeps_error d closedSink openedSink Hopen Hok).
Defined.

Lemma flush_not_open_for_writing_witness :
  QIODevice.isOpen readOnlySink = true /\
  Z.land (QIODevice.openMode readOnlySink) QIODevice.WriteOnly = 0 /\
  exists d',
    Writer.flush WriterPrivate.ctor readOnlySink = (false, d', readOnlySink) /\
    Writer.error d' = DeviceError /\
    Writer.errorString d' = "The device is not open for writing".
Proof.
  assert (Hopen : QIODevice.isOpen readOnlySink = true) by reflexivity.
  assert (Hmode : Z.land (QIODevice.openMode readOnlySink) QIODevice.WriteOnly = 0)
    by reflexivity.
  split; [exact Hopen|]. split; [exact Hmode|].
  exact (flush_not_open_for_writing WriterPrivate.ctor readOnlySink Hopen Hmode).
Defined.

(** C3 as the claim words it fails: the message recorded for a device
    that is open for reading only starts with a capital letter. *)
Lemma flush_read_only_message :
  QIODevice.isOpen readOnlySink = true /\
  Z.land (QIODevice.openMode readOnlySink) QIODevice.WriteOnly = 0 /\
  fst (fst (Writer.flush WriterPrivate.ctor readOnlySink)) = false /\
  Writer.error (snd (fst (Writer.flush WriterPrivate.ctor readOnlySink)))
  = DeviceError /\
  Writer.errorString (snd (fst (Writer.flush WriterPrivate.ctor readOnlySink)))
  <> "the device is not open for writing".
Proof. repeat split. vm_compute. intros E. discriminate E. Qed.

(** C6 as the claim words it fails: a flush that fails on a read-only
    device followed by a flush that succeeds leaves DeviceError and its
    message in place. *)
Lemma flush_success_after_failure :
  let failed := Writer.flush WriterPrivate.ctor readOnlySink in
  let d := Writer.setImages [red] (snd (fst failed)) in
  let succeeded := Writer.flush d closedSink in
  fst (fst failed) = false /\
  Writer.opened closedSink = Some openedSink /\
  fst (finishResult d) = Avif.AVIF_RESULT_OK /\
  fst (fst succeeded) = true /\
  received (snd succeeded) = QByteArray.ofString "ftypavisR00" /\
  Writer.error (snd (fst succeeded)) <> NoError /\
  Writer.errorString (snd (fst succeeded)) <> "No error".
Proof. vm_compute. repeat split; intros E; discriminate E. Qed.

(** C7 on a path that can be written: flush to it succeeds and creates
    the file, yet canWrite answers false for it. *)
Theorem canWrite_fileName_writable_path :
  let path := "/tmp/wallpaper.avif" in
  let d := Writer.setImages [red] WriterPrivate.ctor in
  fst (fst (Writer.flush_fileName d path disk)) = true /\
  QFile.files (snd (Writer.flush_fileName d path disk)) !! path
  = Some (QByteArray.ofString "ftypavisR00") /\
  Writer.canWrite_fileName path disk = (false, disk).
Proof. vm_compute. repeat split. Qed.

Example flush_open_fails :
  let result := Writer.flush WriterPrivate.ctor lockedSink in
  fst (fst result) = false /\
  Writer.error (snd (fst result)) = DeviceError /\
  Writer.errorString (snd (fst result)) = "Permission denied" /\
  received (snd result) = [].
Proof. vm_compute. repeat split. Qed.

Example flush_fileName_denied :
  let result := Writer.flush_fileName WriterPrivate.ctor "/proc/version" disk in
  fst (fst result) = false /\
  Writer.error (snd (fst result)) = DeviceError /\
  Writer.errorString (snd (fst result)) = "Permission denied" /\
  snd result = disk.
Proof. vm_compute. repeat split. Qed.

End Runs.


(** * Further properties *)

(** ** Templates without the placeholder, or with several *)

Section ReplaceAll.
Import QByteArray.

Lemma startsWith_app_long (s rest before : QByteArray.t) :
  (length before <= length s)%nat ->
  startsWith (s ++ rest) before = startsWith s before.
Proof.
  revert s. induction before as [|b before IH]; intros s Hlen; [reflexivity|].
  destruct s as [|c s]; cbn in Hlen; [lia|].
  cbn. rewrite IH by lia. reflexivity.
Qed.

Lemma count_self (before : QByteArray.t) :
  before <> [] -> (1 <= count before before)%nat.
Proof.
  intros Hne. destruct before as [|b bs]; [congruence|].
  cbn [count]. rewrite <- (app_nil_r (b :: bs)) at 1.
  rewrite startsWith_app. lia.
Qed.

(** The first occurrence is replaced and the search goes on behind it. *)
Lemma replace_first (before after seg rest : QByteArray.t) :
  before <> [] ->
  count (seg ++ before) before = 1%nat ->
  replace before after (seg ++ before ++ rest)
  = seg ++ after ++ replace before after rest.
Proof.
  intros Hne. induction seg as [|c seg IH]; intros Hc.
  - destruct before as [|b bs]; [congruence|].
    cbn [app]. simp replace.
    change (b :: bs ++ rest) with ((b :: bs) ++ rest).
    rewrite startsWith_app. cbn [length].
    replace (S (length bs) - 1)%nat with (length bs) by lia.
    now rewrite drop_app_length.
  - cbn [app] in *. simp replace. cbn [count] in Hc.
    pose proof (count_app_ge seg before before) as H1.
    pose proof (count_self before Hne) as H2.
    destruct (startsWith (c :: seg ++ before) before) eqn:E; [lia|].
    change (c :: seg ++ before) with ((c :: seg) ++ before) in E.
    change (c :: seg ++ before ++ rest) with ((c :: seg) ++ before ++ rest).
    rewrite app_assoc, startsWith_app_long, E
      by (rewrite length_app; lia).
    f_equal. apply IH. lia.
Qed.

(** Segments separated by [before] become the same segments separated
    by [after]. *)
Lemma replace_segments (before after last : QByteArray.t)
  (segs : list QByteArray.t) :
  before <> [] ->
  Forall (fun seg => count (seg ++ before) before = 1%nat) segs ->
  count last before = O ->
  replace before after (foldr (fun seg acc => seg ++ before ++ acc) last segs)
  = foldr (fun seg acc => seg ++ after ++ acc) last segs.
Proof.
  intros Hne Hsegs Hlast. induction Hsegs as [|seg segs Hseg _ IH]; cbn [foldr].
  - now apply replace_absent.
  - rewrite replace_first by assumption. now rewrite IH.
Qed.

End ReplaceAll.

Section SerializeMore.
Context `{QtApi}.
Import WriterPrivate.

(** X1: a template in which the token base64 does not occur (an empty
    one included) is returned as it is: the metadata is left out of the
    block without any error. *)
Theorem serializeMetaData_no_placeholder (metaData : list MetaData.t) :
  QByteArray.count metadata_xml placeholder = O ->
  serializeMetaData metaData = metadata_xml.
Proof. intros Hcount. unfold serializeMetaData. now apply replace_absent. Qed.

(** X2: every occurrence of the token is replaced, not only the first:
    a template made of segments separated by the token becomes the same
    segments separated by the payload. *)
Theorem serializeMetaData_every_occurrence (metaData : list MetaData.t)
  (segs : list QByteArray.t) (last : QByteArray.t) :
  metadata_xml = foldr (fun seg acc => seg ++ placeholder ++ acc) last segs ->
  Forall (fun seg => QByteArray.count (seg ++ placeholder) placeholder = 1%nat)
         segs ->
  QByteArray.count last placeholder = O ->
  serializeMetaData metaData
  = foldr (fun seg acc =>
             seg ++
             QByteArray.toBase64
               (QJsonDocument_toJson
                  (JArray (map (fun md => JObject (MetaData.toJson md))
                               metaData))) ++
             acc)
          last segs.
Proof.
  intros Hxml Hsegs Hlast. unfold serializeMetaData.
  rewrite (append_loop (fun md => JObject (MetaData.toJson md))).
  cbn [app]. rewrite Hxml.
  apply replace_segments; [discriminate|assumption|assumption].
Qed.

End SerializeMore.

(** ** The frame loop, frame by frame *)

Section FramesMore.
Context `{QtApi} `{Avif.Api}.
Import Avif WriterPrivate.

Lemma flushFrame_conversion_failed (xmp : QByteArray.t) (st : FlushState)
  (image : QImage.t) :
  conversionResult xmp image <> AVIF_RESULT_OK -> flushFrame xmp st image = st.
Proof.
  unfold conversionResult, flushFrame.
  destruct (avifImageRGBToYUV _ _) as [result avif]. cbn [fst].
  destruct (Z.eqb_spec result AVIF_RESULT_OK) as [->|Hr]; cbn [negb];
    [congruence|reflexivity].
Qed.

Lemma flushFrame_accepted (xmp : QByteArray.t) (st : FlushState)
  (image : QImage.t) :
  conversionResult xmp image = AVIF_RESULT_OK ->
  handOffResult xmp st image = AVIF_RESULT_OK ->
  avifImages (flushFrame xmp st image)
  = avifImages st ++ [convertedFrame xmp image].
Proof.
  unfold conversionResult, handOffResult, convertedFrame, flushFrame.
  destruct (avifImageRGBToYUV _ _) as [result avif]. cbn [fst snd].
  intros ->. cbn [Z.eqb negb AVIF_RESULT_OK].
  destruct (avifEncoderAddImage _ _ _ _) as [result' encoder]. cbn [fst].
  intros ->. reflexivity.
Qed.

Lemma flushFrame_kept (xmp : QByteArray.t) (st : FlushState) (image : QImage.t) :
  avifImages (flushFrame xmp st image) = avifImages st \/
  avifImages (flushFrame xmp st image)
  = avifImages st ++ [convertedFrame xmp image].
Proof.
  unfold convertedFrame, flushFrame.
  destruct (avifImageRGBToYUV _ _) as [result avif]. cbn [snd].
  destruct (negb (result =? AVIF_RESULT_OK)); [now left|].
  destruct (avifEncoderAddImage _ _ _ _) as [result' encoder].
  destruct (negb (result' =? AVIF_RESULT_OK)); [now left|now right].
Qed.

(** X3: when no conversion and no hand-off fails, the loop keeps one
    frame per image, in the order of the images, behind the frames it
    started with. *)
Theorem flushFrames_accepted (xmp : QByteArray.t) (st : FlushState)
  (images : list QImage.t) :
  framesAccepted xmp st images ->
  avifImages (flushFrames xmp st images)
  = avifImages st ++ map (convertedFrame xmp) images.
Proof.
  revert st. induction images as [|image images IH]; intros st Hok.
  - cbn. now rewrite app_nil_r.
  - destruct Hok as (Hc & Hh & Hrest).
    change (flushFrames xmp st (image :: images))
      with (flushFrames xmp (flushFrame xmp st image) images).
    rewrite (IH _ Hrest), (flushFrame_accepted xmp st image Hc Hh).
    now rewrite <- app_assoc.
Qed.

(** X4: whatever fails, the frames kept by the loop are a subsequence
    of the converted images, in the order of the images: no frame is
    kept twice, none is reordered, and there are never more than
    images. *)
Theorem flushFrames_sublist (xmp : QByteArray.t) (st : FlushState)
  (images : list QImage.t) :
  exists kept,
    avifImages (flushFrames xmp st images) = avifImages st ++ kept /\
    sublist kept (map (convertedFrame xmp) images) /\
    (length kept <= length images)%nat.
Proof.
  revert st. induction images as [|image images IH]; intros st.
  - exists []. cbn. rewrite app_nil_r. repeat split; [constructor|lia].
  - change (flushFrames xmp st (image :: images))
      with (flushFrames xmp (flushFrame xmp st image) images).
    destruct (IH (flushFrame xmp st image)) as (kept & Heq & Hsub & Hlen).
    destruct (flushFrame_kept xmp st image) as [Hsame|Hadd].
    + exists kept. rewrite Heq, Hsame. cbn [map length].
      repeat split; [now apply sublist_cons|lia].
    + exists (convertedFrame xmp image :: kept).
      rewrite Heq, Hadd, <- app_assoc. cbn [map length app].
      repeat split; [now apply sublist_skip|lia].
Qed.

(** X5: when the conversion fails for every image (and when there is
    no image), the loop leaves its state as it found it: the encoder is
    handed nothing, and flush finishes the encoder as it was created. *)
Theorem flushFrames_all_conversions_fail (d : t) :
  Forall (fun image =>
            conversionResult (serializeMetaData (metaData d)) image
            <> AVIF_RESULT_OK) (images d) ->
  flushFrames (serializeMetaData (metaData d)) (flushStart d) (images d)
  = flushStart d /\
  finishResult d
  = avifEncoderFinish (setMaxThreads idealThreadCount avifEncoderCreate).
Proof.
  intros Hfail.
  assert (Hloop : forall st,
             flushFrames (serializeMetaData (metaData d)) st (images d) = st).
  { induction Hfail as [|image images Hi _ IH]; intros st; [reflexivity|].
    change (flushFrames ?x st (image :: images))
      with (flushFrames x (flushFrame x st image) images).
    now rewrite IH, flushFrame_conversion_failed. }
  split; [apply Hloop|].
  unfold finishResult. now rewrite Hloop.
Qed.

Lemma flushFrame_encoder (xmp : QByteArray.t) (st st' : FlushState)
  (image : QImage.t) :
  encoder st = encoder st' ->
  encoder (flushFrame xmp st image) = encoder (flushFrame xmp st' image).
Proof.
  intros He. unfold flushFrame.
  destruct (avifImageRGBToYUV _ _) as [result avif].
  destruct (negb (result =? AVIF_RESULT_OK)); [exact He|].
  rewrite He.
  destruct (avifEncoderAddImage _ _ _ _) as [result' encoder'].
  destruct (negb (result' =? AVIF_RESULT_OK)); reflexivity.
Qed.

Lemma flushFrames_encoder (xmp : QByteArray.t) (images : list QImage.t)
  (st st' : FlushState) :
  encoder st = encoder st' ->
  encoder (flushFrames xmp st images) = encoder (flushFrames xmp st' images).
Proof.
  revert st st'. induction images as [|image images IH]; intros st st' He;
    [exact He|].
  apply IH, flushFrame_encoder, He.
Qed.

Lemma finishResult_lists (d d' : t) :
  images d' = images d -> metaData d' = metaData d ->
  finishResult d' = finishResult d.
Proof.
  intros Hi Hm. unfold finishResult. rewrite Hi, Hm. f_equal.
  now apply flushFrames_encoder.
Qed.

(** What one iteration does to the encoder: nothing when the
    conversion fails, one hand-off otherwise. *)
Lemma flushFrame_handOff (xmp : QByteArray.t) (st : FlushState)
  (image : QImage.t) :
  encoder (flushFrame xmp st image)
  = if converts xmp image
    then handOff (encoder st) (convertedFrame xmp image)
    else encoder st.
Proof.
  unfold converts, conversionResult, convertedFrame, handOff, flushFrame.
  destruct (avifImageRGBToYUV _ _) as [result avif]. cbn [fst snd].
  destruct (result =? AVIF_RESULT_OK); cbn [negb]; [|reflexivity].
  destruct (avifEncoderAddImage _ _ _ _) as [result' encoder'].
  destruct (negb (result' =? AVIF_RESULT_OK)); reflexivity.
Qed.

(** What the loop does to the encoder: every image whose conversion
    succeeds is handed to it, in the order of the images. *)
Lemma flushFrames_handOffs (xmp : QByteArray.t) (images : list QImage.t)
  (st : FlushState) :
  encoder (flushFrames xmp st images)
  = handOffs (encoder st)
      (map (convertedFrame xmp) (List.filter (converts xmp) images)).
Proof.
  revert st. induction images as [|image images IH]; intros st; [reflexivity|].
  change (flushFrames xmp st (image :: images))
    with (flushFrames xmp (flushFrame xmp st image) images).
  rewrite IH, flushFrame_handOff. cbn [List.filter].
  destruct (converts xmp image); reflexivity.
Qed.

Lemma flushFrames_kept_accepted (xmp : QByteArray.t) (images : list QImage.t)
  (st : FlushState) :
  framesAccepted xmp st images ->
  avifImages (flushFrames xmp st images)
  = avifImages st ++ map (convertedFrame xmp) images.
Proof.
  revert st. induction images as [|image images IH]; intros st Hok.
  - cbn. now rewrite app_nil_r.
  - destruct Hok as (Hc & Hh & Hrest).
    change (flushFrames xmp st (image :: images))
      with (flushFrames xmp (flushFrame xmp st image) images).
    rewrite (IH _ Hrest), (flushFrame_accepted xmp st image Hc Hh).
    now rewrite <- app_assoc.
Qed.

(** C5: when the conversion of a frame or its hand-off to the encoder
    fails, only that frame is lost. The iteration changes nothing but
    the encoder, and that only by the hand-off that failed: the frame is
    not kept and the error members stay as they were. The loop then
    runs over the frames behind it: each of them whose conversion
    succeeds is handed to the encoder, in order; those that are accepted
    are kept behind the frames kept before; the error members at the end
    are those at the start. After a failed conversion the run is the run
    without that frame. *)
Theorem flushFrames_failed_frame (xmp : QByteArray.t)
  (st0 : FlushState) (before after : list QImage.t) (image : QImage.t) :
  let st := flushFrames xmp st0 before in
  let st' := flushFrame xmp st image in
  let final := flushFrames xmp st0 (before ++ image :: after) in
  conversionResult xmp image <> AVIF_RESULT_OK \/
  handOffResult xmp st image <> AVIF_RESULT_OK ->
  st' = {| self := self st;
           encoder := if converts xmp image
                      then handOff (encoder st) (convertedFrame xmp image)
                      else encoder st;
           avifImages := avifImages st |} /\
  wallpaperWriterError (self st') = wallpaperWriterError (self st0) /\
  WriterPrivate.errorString (self st') = WriterPrivate.errorString (self st0) /\
  final = flushFrames xmp st' after /\
  encoder final
  = handOffs (encoder st')
      (map (convertedFrame xmp) (List.filter (converts xmp) after)) /\
  (framesAccepted xmp st' after ->
   avifImages final = avifImages st ++ map (convertedFrame xmp) after) /\
  self final = self st0 /\
  (conversionResult xmp image <> AVIF_RESULT_OK ->
   final = flushFrames xmp st0 (before ++ after)).
Proof.
  intros st st' final Hfailed.
  assert (Hfinal : final = flushFrames xmp st' after).
  { unfold final, st', st. now rewrite flushFrames_app. }
  assert (Hkept : avifImages st' = avifImages st)
    by exact (flushFrame_failed xmp st image Hfailed).
  assert (Hself : self st' = self st0).
  { unfold st', st. now rewrite flushFrame_self, flushFrames_self. }
  split.
  { rewrite <- Hkept, <- (flushFrame_self xmp st image),
      <- (flushFrame_handOff xmp st image).
    fold st'. now destruct st'. }
  rewrite Hself, Hfinal. repeat split.
  - apply flushFrames_handOffs.
  - intros Hok. rewrite (flushFrames_kept_accepted xmp after st' Hok).
    now rewrite Hkept.
  - now rewrite flushFrames_self.
  - intros Hconversion. unfold st', st.
    rewrite (flushFrame_conversion_failed xmp _ image Hconversion).
    symmetry. apply flushFrames_app.
Qed.

End FramesMore.

(** ** flush and canWrite on every path *)

Section FlushMore.
Context `{QtApi} `{Avif.Api}.
Import Avif WriterPrivate.

Section AnyDevice.
Context {D : Type} `{QIODevice.Ops D}.

(** X6: flush on a device that is not open and that open(WriteOnly)
    fails to open returns false and records DeviceError with the error
    string the device reports after the attempt; nothing is encoded or
    written. *)
Theorem flush_open_failure (d : t) (device device' : D) :
  QIODevice.isOpen device = false ->
  QIODevice.open QIODevice.WriteOnly device = (false, device') ->
  Writer.flush d device
  = (false, setError DeviceError (QIODevice.errorString device') d, device').
Proof.
  intros Hclosed Hopen. unfold Writer.flush. now rewrite Hclosed, Hopen.
Qed.

Lemma flush_not_opened (d : t) (device : D) :
  Writer.opened device = None ->
  exists message device',
    Writer.flush d device = (false, setError DeviceError message d, device').
Proof.
  unfold Writer.opened, Writer.flush.
  destruct (QIODevice.isOpen device).
  - destruct (Z.land _ _ =? 0); [|discriminate]. intros _. now eexists _, _.
  - destruct (QIODevice.open _ device) as [ok device0].
    destruct ok; [discriminate|]. intros _. now eexists _, _.
Qed.

(** What a flush can do to the writer: nothing, or record an error. *)
Lemma flush_writer (d : t) (device : D) :
  snd (fst (Writer.flush d device)) = d \/
  exists e message,
    e <> NoError /\ snd (fst (Writer.flush d device)) = setError e message d.
Proof.
  destruct (Writer.opened device) as [device'|] eqn:Hopen.
  - rewrite (flush_opened d device device' Hopen), private_flush_finish.
    destruct (_ =? _); [now left|].
    right. exists EncoderError. now eexists.
  - destruct (flush_not_opened d device Hopen) as (message & device' & ->).
    right. exists DeviceError, message. now split.
Qed.

(** X7: the boolean flush returns only tells whether the device was
    open for writing or could be opened: it is true then, whatever the
    encoder does, and when it is false the error is DeviceError. *)
Theorem flush_returns_opened (d : t) (device : D) :
  (fst (fst (Writer.flush d device)) = true <->
   exists device', Writer.opened device = Some device') /\
  (fst (fst (Writer.flush d device)) = false ->
   Writer.error (snd (fst (Writer.flush d device))) = DeviceError).
Proof.
  destruct (Writer.opened device) as [device'|] eqn:Hopen.
  - rewrite (flush_opened d device device' Hopen). cbn [fst snd].
    split; [|discriminate]. split; [now exists device'|reflexivity].
  - destruct (flush_not_opened d device Hopen) as (message & device' & ->).
    cbn [fst snd]. split; [|reflexivity].
    split; [discriminate|]. intros [device'' [=]].
Qed.

(** X8: a device for which canWrite answers true is flushed as it is:
    flush returns true and hands the device it was given to the private
    flush, without opening it. And canWrite answers false for every
    device that is not open, also when flush would open it. *)
Theorem canWrite_flush (d : t) (device : D) :
  (Writer.canWrite device = true ->
   Writer.flush d device
   = (true, fst (WriterPrivate.flush d device),
      snd (WriterPrivate.flush d device))) /\
  (QIODevice.isOpen device = false -> Writer.canWrite device = false).
Proof.
  unfold Writer.canWrite, QIODevice.isWritable, QIODevice.isOpen. split.
  - intros Hw. apply flush_opened. unfold Writer.opened, QIODevice.isOpen.
    destruct (Z.eqb_spec (Z.land (QIODevice.openMode device) QIODevice.WriteOnly) 0)
      as [E|E]; [discriminate|].
    destruct (Z.eqb_spec (QIODevice.openMode device) QIODevice.NotOpen)
      as [E'|E']; [|reflexivity].
    rewrite E' in E. now contradiction E.
  - intros Hclosed. apply negb_false_iff, Z.eqb_eq in Hclosed.
    now rewrite Hclosed.
Qed.

End AnyDevice.

(** X9: flush(fileName) is flush(device) on a QFile constructed for
    the name: same result, same writer afterwards, and the file system
    is the one the file object leaves. *)
Theorem flush_fileName_as_device (d : t) (fileName : string)
  (fs : QFile.FileSystem) :
  Writer.flush_fileName d fileName fs
  = (fst (fst (Writer.flush d (QFile.ctor fileName fs))),
     snd (fst (Writer.flush d (QFile.ctor fileName fs))),
     QFile.fs (snd (Writer.flush d (QFile.ctor fileName fs)))).
Proof.
  unfold Writer.flush_fileName, Writer.flush.
  change (QIODevice.isOpen (QFile.ctor fileName fs)) with false. cbn iota.
  destruct (QIODevice.open _ _) as [ok file]. destruct ok; cbn [negb].
  - now destruct (WriterPrivate.flush d file).
  - reflexivity.
Qed.

(** X10: flush(fileName) on a path that cannot be opened for writing
    returns false, records DeviceError with the message of the failed
    open and leaves the file system as it was. *)
Theorem flush_fileName_open_failure (d : t) (fileName message : string)
  (fs : QFile.FileSystem) :
  QFile.denied fs !! fileName = Some message ->
  Writer.flush_fileName d fileName fs
  = (false, setError DeviceError message d, fs).
Proof.
  intros Hdenied. unfold Writer.flush_fileName.
  cbn [QIODevice.open QFile.ops]. unfold QFile.open.
  cbn [QFile.ctor QFile.fs QFile.fileName QFile.mode QFile.error].
  now rewrite Hdenied.
Qed.

(** X11: flush(fileName) on a path that can be opened for writing
    returns true and creates or truncates the file: after it the file
    holds the encoder's output and nothing of what it held before, or
    is empty when the encoder fails, which only error() tells. No other
    file changes. *)
Theorem flush_fileName_outcome (d : t) (fileName : string)
  (fs : QFile.FileSystem) :
  QFile.denied fs !! fileName = None ->
  let result := Writer.flush_fileName d fileName fs in
  fst (fst result) = true /\
  (fst (finishResult d) = AVIF_RESULT_OK ->
   QFile.files (snd result) !! fileName = Some (snd (finishResult d)) /\
   Writer.error (snd (fst result)) = Writer.error d) /\
  (fst (finishResult d) <> AVIF_RESULT_OK ->
   QFile.files (snd result) !! fileName = Some [] /\
   Writer.error (snd (fst result)) = EncoderError) /\
  (forall other, other <> fileName ->
     QFile.files (snd result) !! other = QFile.files fs !! other).
Proof.
  intros Hfree result. unfold result.
  rewrite (flush_fileName_finish d fileName fs Hfree).
  destruct (Z.eqb_spec (fst (finishResult d)) AVIF_RESULT_OK) as [E|E];
    cbn [fst snd QFile.files]; (split; [reflexivity|]).
  - split; [intros _; now rewrite lookup_insert_eq|].
    split; [intros E'; now contradiction E'|].
    intros other Hother. now rewrite lookup_insert_ne.
  - split; [intros E'; now contradiction E|].
    split; [intros _; now rewrite lookup_insert_eq|].
    intros other Hother. now rewrite lookup_insert_ne.
Qed.

Lemma flush_fileName_writer (d : t) (fileName : string) (fs : QFile.FileSystem) :
  snd (fst (Writer.flush_fileName d fileName fs)) = d \/
  exists e message,
    e <> NoError /\
    snd (fst (Writer.flush_fileName d fileName fs)) = setError e message d.
Proof.
  rewrite flush_fileName_as_device. cbn [fst snd]. apply flush_writer.
Qed.

(** X12: no flush touches the stored lists, and what the encoder is
    given does not depend on the error members: after a flush, on any
    path of either overload, images() and metaData() are as before and
    the next flush encodes to the same result. *)
Theorem flush_keeps_lists {D : Type} `{QIODevice.Ops D} (d : t) (device : D)
  (fileName : string) (fs : QFile.FileSystem) :
  let d1 := snd (fst (Writer.flush d device)) in
  let d2 := snd (fst (Writer.flush_fileName d fileName fs)) in
  (Writer.images d1 = Writer.images d /\
   Writer.metaData d1 = Writer.metaData d /\
   finishResult d1 = finishResult d) /\
  (Writer.images d2 = Writer.images d /\
   Writer.metaData d2 = Writer.metaData d /\
   finishResult d2 = finishResult d).
Proof.
  intros d1 d2.
  assert (Hkeep : forall d', (d' = d \/ exists e message,
                                e <> NoError /\ d' = setError e message d) ->
                             Writer.images d' = Writer.images d /\
                             Writer.metaData d' = Writer.metaData d /\
                             finishResult d' = finishResult d).
  { intros d' [->|(e & message & _ & ->)]; repeat split.
    apply finishResult_lists; reflexivity. }
  split; apply Hkeep; [apply flush_writer|apply flush_fileName_writer].
Qed.

Lemma step_error (d d' : t) :
  Writer.Step d d' ->
  Writer.error d' = Writer.error d \/
  Writer.error d' = DeviceError \/ Writer.error d' = EncoderError.
Proof.
  assert (Hflush : forall d0 d1 : t,
             (d1 = d0 \/ exists e message,
                           e <> NoError /\ d1 = setError e message d0) ->
             Writer.error d1 = Writer.error d0 \/
             Writer.error d1 = DeviceError \/ Writer.error d1 = EncoderError).
  { intros d0 d1 [->|(e & message & He & ->)]; [now left|].
    right. destruct e; [congruence|now left|now right]. }
  intros [metaData d0|images d0|D Hops device d0|fileName fs d0].
  - now left.
  - now left.
  - apply Hflush, flush_writer.
  - apply Hflush, flush_fileName_writer.
Qed.

(** X13: no method of the writer clears an error. Over any sequence of
    setMetaData, setImages and flush calls, error() stays what it was or
    becomes DeviceError or EncoderError; once it is not NoError it never
    is NoError again. *)
Theorem error_never_cleared (d d' : t) :
  rtc Writer.Step d d' ->
  (Writer.error d' = Writer.error d \/
   Writer.error d' = DeviceError \/ Writer.error d' = EncoderError) /\
  (Writer.error d <> NoError -> Writer.error d' <> NoError).
Proof.
  intros Hsteps.
  assert (Hcases : Writer.error d' = Writer.error d \/
                   Writer.error d' = DeviceError \/
                   Writer.error d' = EncoderError).
  { induction Hsteps as [d|d d1 d' Hstep _ IH]; [now left|].
    destruct (step_error d d1 Hstep) as [E|[E|E]];
      destruct IH as [E'|[E'|E']]; rewrite ?E', ?E; auto. }
  split; [exact Hcases|].
  intros Herr. destruct Hcases as [E|[E|E]]; rewrite E; [exact Herr| |];
    discriminate.
Qed.

Lemma setImages_isNull_format (image : QImage.t) :
  QImage.isNull image = true -> QImage.format image <> QImage.Format_RGB888.
Proof.
  unfold QImage.isNull. intros E%Z.eqb_eq. rewrite E. discriminate.
Qed.

(** C9, for the images that hold pixels: given that convertToFormat
    returns an image of the format asked for when the image is not
    null, and a null image as it is, setImages replaces the stored list
    by as many images as it is given, in order; the image stored for a
    non-null input is in Format_RGB888 whatever the input's format was,
    and the image stored for a null input is that null image, which is
    not in Format_RGB888. *)
Theorem setImages_RGB888_nonNull (images : list QImage.t) (d : t) :
  (forall image format,
     QImage.isNull image = false ->
     QImage.format (convertToFormat image format) = format) ->
  (forall image format,
     QImage.isNull image = true -> convertToFormat image format = image) ->
  length (Writer.images (Writer.setImages images d)) = length images /\
  Forall2 (fun image stored =>
             if QImage.isNull image
             then stored = image /\
                  QImage.format stored <> QImage.Format_RGB888
             else QImage.format stored = QImage.Format_RGB888)
          images (Writer.images (Writer.setImages images d)) /\
  (Forall (fun image => QImage.isNull image = false) images ->
   Forall (fun stored => QImage.format stored = QImage.Format_RGB888)
          (Writer.images (Writer.setImages images d))).
Proof.
  intros Hformat Hnull. unfold Writer.images. rewrite setImages_map.
  split; [apply length_map|]. split.
  - induction images as [|image images IH]; cbn [map]; constructor;
      [|exact IH].
    destruct (QImage.isNull image) eqn:E.
    + rewrite (Hnull _ _ E). split; [reflexivity|].
      now apply setImages_isNull_format.
    + now apply Hformat.
  - intros Hpixels. induction Hpixels as [|image images E _ IH]; cbn [map];
      constructor; [now apply Hformat|exact IH].
Qed.

(** X14: given that converting a converted image again changes
    nothing, the list images() returns can be given back to setImages
    and is stored as it is. *)
Theorem setImages_images (images : list QImage.t) (d d' : t) :
  (forall image format,
     convertToFormat (convertToFormat image format) format
     = convertToFormat image format) ->
  Writer.images (Writer.setImages (Writer.images (Writer.setImages images d)) d')
  = Writer.images (Writer.setImages images d).
Proof.
  intros Hagain. unfold Writer.images. rewrite !setImages_map.
  induction images as [|image images IH]; [reflexivity|].
  cbn [map]. now rewrite Hagain, IH.
Qed.

End FlushMore.

(** ** The presence flags *)

Section FlagsMore.
Import MetaData.



End FlagsMore.

(** ** Further runs on the test doubles *)

Section MoreRuns.
#[local] Existing Instance Double.qt.
#[local] Existing Instance Double.avif.
Import WriterPrivate Double.

Lemma serializeMetaData_no_placeholder_witness :
  let xml := QByteArray.ofString "<x:xmpmeta xmlns:x='adobe:ns:meta/'/>" in
  QByteArray.count (metadata_xml (QtApi := qtWith xml)) placeholder = O /\
  serializeMetaData (H := qtWith xml) [MetaData.setIndex 1 MetaData.empty] = xml.
Proof.
  intros xml.
  assert (Hcount : QByteArray.count (metadata_xml (QtApi := qtWith xml))
                     placeholder = O) by reflexivity.
  split; [exact Hcount|].
  exact (serializeMetaData_no_placeholder (H := qtWith xml)
           [MetaData.setIndex 1 MetaData.empty] Hcount).
Defined.

Lemma serializeMetaData_every_occurrence_witness :
  let xml := QByteArray.ofString "<a>base64</a><b>base64</b>" in
  let segs := [QByteArray.ofString "<a>"; QByteArray.ofString "</a><b>"] in
  let last := QByteArray.ofString "</b>" in
  metadata_xml (QtApi := qtWith xml)
  = foldr (fun seg acc => seg ++ placeholder ++ acc) last segs /\
  Forall (fun seg => QByteArray.count (seg ++ placeholder) placeholder = 1%nat)
         segs /\
  QByteArray.count last placeholder = O /\
  serializeMetaData (H := qtWith xml) [MetaData.empty]
  = QByteArray.ofString "<a>W3t9XQ==</a><b>W3t9XQ==</b>".
Proof.
  intros xml segs last.
  assert (Hxml : metadata_xml (QtApi := qtWith xml)
                 = foldr (fun seg acc => seg ++ placeholder ++ acc) last segs)
    by reflexivity.
  assert (Hsegs : Forall (fun seg =>
                            QByteArray.count (seg ++ placeholder) placeholder
                            = 1%nat) segs)
    by (repeat constructor).
  assert (Hlast : QByteArray.count last placeholder = O) by reflexivity.
  split; [exact Hxml|]. split; [exact Hsegs|]. split; [exact Hlast|].
  exact (serializeMetaData_every_occurrence (H := qtWith xml)
           [MetaData.empty] segs last Hxml Hsegs Hlast).
Defined.

Lemma flushFrames_failed_frame_witness :
  let st0 := flushStart WriterPrivate.ctor in
  let st := flushFrames [] st0 [red] in
  let final := flushFrames [] st0 ([red] ++ wide :: [blank; blue]) in
  (conversionResult [] wide <> Avif.AVIF_RESULT_OK \/
   handOffResult [] st wide <> Avif.AVIF_RESULT_OK) /\
  flushFrame [] st wide = st /\
  map planes (encoder final)
  = [QByteArray.ofString "R00"; QByteArray.ofString "B00"] /\
  self final = WriterPrivate.ctor.
Proof.
  intros st0 st final.
  assert (Hfailed : conversionResult [] wide <> Avif.AVIF_RESULT_OK \/
                    handOffResult [] st wide <> Avif.AVIF_RESULT_OK)
    by (right; vm_compute; discriminate).
  split; [exact Hfailed|].
  destruct (flushFrames_failed_frame [] st0 [red] [blank; blue] wide Hfailed)
    as (Hstep & _ & _ & _ & Hencoder & _ & Hself & _).
  split; [exact Hstep|].
  split; [exact (f_equal (map planes) Hencoder)|exact Hself].
Defined.

Lemma setImages_RGB888_nonNull_witness :
  let stored :=
    Writer.images
      (Writer.setImages (H := qtNullAware) [red; QImage.null; wide]
                        WriterPrivate.ctor) in
  (forall image format,
     QImage.isNull image = false ->
     QImage.format (convertToFormat (QtApi := qtNullAware) image format)
     = format) /\
  (forall image format,
     QImage.isNull image = true ->
     convertToFormat (QtApi := qtNullAware) image format = image) /\
  length stored = 3%nat /\
  Forall2 (fun image stored =>
             if QImage.isNull image
             then stored = image /\
                  QImage.format stored <> QImage.Format_RGB888
             else QImage.format stored = QImage.Format_RGB888)
          [red; QImage.null; wide] stored.
Proof.
  intros stored.
  assert (Hformat : forall image format,
             QImage.isNull image = false ->
             QImage.format (convertToFormat (QtApi := qtNullAware) image format)
             = format).
  { intros image format E. cbn. unfold convertUnlessNull. now rewrite E. }
  assert (Hnull : forall image format,
             QImage.isNull image = true ->
             convertToFormat (QtApi := qtNullAware) image format = image).
  { intros image format E. cbn. unfold convertUnlessNull. now rewrite E. }
  split; [exact Hformat|]. split; [exact Hnull|].
  destruct (setImages_RGB888_nonNull (H := qtNullAware)
              [red; QImage.null; wide] WriterPrivate.ctor Hformat Hnull)
    as (Hlength & Heach & _).
  split; [exact Hlength|exact Heach].
Defined.

(** C9 as the claim words it fails on a list that holds a null image:
    with a conversion that returns the format asked for on every image
    that holds pixels and, as Qt's, a null image as it is, the image
    stored for the null image is not in Format_RGB888. *)
Lemma setImages_null_image :
  let stored :=
    Writer.images
      (Writer.setImages (H := qtNullAware) [red; QImage.null]
                        WriterPrivate.ctor) in
  length stored = 2%nat /\
  stored !! 1%nat = Some QImage.null /\
  ~ Forall (fun image => QImage.format image = QImage.Format_RGB888) stored.
Proof.
  intros stored. split; [reflexivity|]. split; [reflexivity|].
  intros Hall. apply Forall_cons in Hall as [_ Hall].
  apply Forall_cons in Hall as [Hnull _]. discriminate Hnull.
Qed.

Lemma flushFrames_accepted_witness :
  let st := flushStart WriterPrivate.ctor in
  framesAccepted [] st [red; blue] /\
  map planes (avifImages (flushFrames [] st [red; blue]))
  = [QByteArray.ofString "R00"; QByteArray.ofString "B00"].
Proof.
  intros st.
  assert (Hok : framesAccepted [] st [red; blue]) by (repeat split).
  split; [exact Hok|].
  exact (f_equal (map planes) (flushFrames_accepted [] st [red; blue] Hok)).
Defined.

Example flushFrames_sublist_mixed :
  map planes
      (avifImages (flushFrames [] (flushStart WriterPrivate.ctor)
                     [blank; red; wide; blue; blank]))
  = [QByteArray.ofString "R00"; QByteArray.ofString "B00"].
Proof. reflexivity. Qed.

Lemma flushFrames_all_conversions_fail_witness :
  let d := Writer.setImages [blank; blank] WriterPrivate.ctor in
  Forall (fun image =>
            conversionResult (serializeMetaData (metaData d)) image
            <> Avif.AVIF_RESULT_OK) (images d) /\
  finishResult d = (NO_CONTENT, []).
Proof.
  intros d.
  assert (Hfail : Forall (fun image =>
                            conversionResult (serializeMetaData (metaData d)) image
                            <> Avif.AVIF_RESULT_OK) (images d))
    by (repeat constructor; intros E; vm_compute in E; discriminate E).
  split; [exact Hfail|].
  exact (proj2 (flushFrames_all_conversions_fail d Hfail)).
Defined.

Lemma flush_open_failure_witness :
  let device' :=
    {| sinkMode := QIODevice.NotOpen; openFails := Some "Permission denied";
       sinkError := "Permission denied"; received := [] |} in
  QIODevice.isOpen lockedSink = false /\
  QIODevice.open QIODevice.WriteOnly lockedSink = (false, device') /\
  Writer.flush WriterPrivate.ctor lockedSink
  = (false, setError DeviceError "Permission denied" WriterPrivate.ctor, device').
Proof.
  intros device'.
  assert (Hclosed : QIODevice.isOpen lockedSink = false) by reflexivity.
  assert (Hopen : QIODevice.open QIODevice.WriteOnly lockedSink = (false, device'))
    by reflexivity.
  split; [exact Hclosed|]. split; [exact Hopen|].
  exact (flush_open_failure WriterPrivate.ctor lockedSink device' Hclosed Hopen).
Defined.

Example canWrite_closed_but_flushable :
  Writer.canWrite closedSink = false /\
  fst (fst (Writer.flush (Writer.setImages [red] WriterPrivate.ctor) closedSink))
  = true /\
  Writer.canWrite openedSink = true.
Proof. repeat split. Qed.

Lemma flush_fileName_outcome_witness :
  let path := "/tmp/wallpaper.avif" in
  let d := Writer.setImages [red] WriterPrivate.ctor in
  QFile.denied usedDisk !! path = None /\
  fst (fst (Writer.flush_fileName d path usedDisk)) = true /\
  QFile.files (snd (Writer.flush_fileName d path usedDisk)) !! path
  = Some (QByteArray.ofString "ftypavisR00") /\
  QFile.files (snd (Writer.flush_fileName WriterPrivate.ctor path usedDisk)) !! path
  = Some [] /\
  QFile.files (snd (Writer.flush_fileName d path usedDisk)) !! "/tmp/notes.txt"
  = Some (QByteArray.ofString "notes").
Proof.
  intros path d.
  assert (Hfree : QFile.denied usedDisk !! path = None) by reflexivity.
  split; [exact Hfree|].
  destruct (flush_fileName_outcome d path usedDisk Hfree)
    as (Htrue & Hok & _ & Hother).
  destruct (flush_fileName_outcome WriterPrivate.ctor path usedDisk Hfree)
    as (_ & _ & Hfail & _).
  split; [exact Htrue|].
  split; [exact (proj1 (Hok eq_refl))|].
  split; [apply Hfail; intros E; discriminate E|].
  exact (Hother "/tmp/notes.txt" ltac:(intros E; discriminate E)).
Defined.

Lemma flush_fileName_open_failure_witness :
  QFile.denied disk !! "/proc/version" = Some "Permission denied" /\
  Writer.flush_fileName WriterPrivate.ctor "/proc/version" disk
  = (false, setError DeviceError "Permission denied" WriterPrivate.ctor, disk).
Proof.
  assert (Hdenied : QFile.denied disk !! "/proc/version"
                    = Some "Permission denied") by reflexivity.
  split; [exact Hdenied|].
  exact (flush_fileName_open_failure WriterPrivate.ctor "/proc/version"
           "Permission denied" disk Hdenied).
Defined.

Lemma error_never_cleared_witness :
  let d := snd (fst (Writer.flush WriterPrivate.ctor readOnlySink)) in
  let d' := snd (fst (Writer.flush (Writer.setImages [red] d) closedSink)) in
  rtc Writer.Step d d' /\
  Writer.error d <> NoError /\
  Writer.error d' <> NoError.
Proof.
  intros d d'.
  assert (Hsteps : rtc Writer.Step d d').
  { eapply rtc_l; [exact (Writer.StepSetImages [red] d)|].
    eapply rtc_l; [exact (Writer.StepFlush closedSink _)|].
    apply rtc_refl. }
  assert (Herr : Writer.error d <> NoError) by (intros E; discriminate E).
  split; [exact Hsteps|]. split; [exact Herr|].
  exact (proj2 (error_never_cleared d d' Hsteps) Herr).
Defined.

Lemma setImages_images_witness :
  (forall image format,
     convertToFormat (convertToFormat image format) format
     = convertToFormat image format) /\
  Writer.images
    (Writer.setImages
       (Writer.images (Writer.setImages [red; wide] WriterPrivate.ctor))
       WriterPrivate.ctor)
  = Writer.images (Writer.setImages [red; wide] WriterPrivate.ctor).
Proof.
  assert (Hagain : forall image format,
             convertToFormat (convertToFormat image format) format
             = convertToFormat image format) by reflexivity.
  split; [exact Hagain|].
  exact (setImages_images [red; wide] WriterPrivate.ctor WriterPrivate.ctor Hagain).
Defined.

End MoreRuns.
